(** * A shallow embedding of rust-psbt-v2 (BIP-174 / BIP-370 PSBT version 2)

    The data model of [src/lib.rs], [src/input.rs] and [src/output.rs], the
    Combiner ([Psbt::combine_with], [Psbt::combine], [Input::combine],
    [Output::combine] and the [combine_option] / [combine_map] macros), the
    lock time resolver [Psbt::determine_lock_time], [Input::funding_utxo],
    [Finalizer::new] and the output's [assert_is_valid_v0].

    Rust's [BTreeMap] is a stdpp [gmap]; the keys of the cryptographic maps
    (public keys, hashes, control blocks, extended keys) are their encodings
    as [N].  Fixed width integers are [N] or [Z]; [usize] additions that can
    overflow are checked as in a debug build, where an overflow panics. *)

From stdpp Require Import base gmap list fin_maps.
From Stdlib Require Import NArith ZArith Lia.

Open Scope N_scope.

(* ------------------------------------------------------------------ *)
(** ** Outcomes: [Result<T, E>] plus the panics of [expect] and slicing *)

Inductive outcome (A E : Type) : Type :=
| Ok (x : A)
| Err (e : E)
| Panic.
Arguments Ok {A E} x.
Arguments Err {A E} e.
Arguments Panic {A E}.

(** The [?] operator. *)
Definition bind {A B E} (o : outcome A E) (k : A -> outcome B E) : outcome B E :=
  match o with
  | Ok x => k x
  | Err e => Err e
  | Panic => Panic
  end.

Notation "'let!' x ':=' e 'in' k" := (bind e (fun x => k))
  (at level 200, x name, e at level 100, k at level 200).

(** Maps the error of a [Result] into a wider error type ([From] / [into]). *)
Definition map_err {A E F} (f : E -> F) (o : outcome A E) : outcome A F :=
  match o with
  | Ok x => Ok x
  | Err e => Err (f e)
  | Panic => Panic
  end.

Definition is_ok {A E} (o : outcome A E) : bool :=
  match o with Ok _ => true | _ => false end.

(* ------------------------------------------------------------------ *)
(** ** Bitcoin primitives used by the crate *)

(** [absolute::LockTime]: a block height or a Unix time. *)
Inductive LockTime : Type :=
| Blocks (h : N)
| Seconds (t : N).

(** [absolute::LockTime::ZERO]. *)
Definition LockTime_ZERO : LockTime := Blocks 0.

Definition ScriptBuf := list N.          (* script bytes *)
Definition Witness := list (list N).     (* witness stack items *)
Definition Txid := N.
Definition Fingerprint := N.             (* 4 byte key fingerprint *)
Definition DerivationPath := list N.     (* sequence of child numbers *)
Definition KeySource := (Fingerprint * DerivationPath)%type.

Record TxOut := mkTxOut {
  value : N;
  txout_script_pubkey : ScriptBuf;
}.

Record Transaction := mkTransaction {
  version : Z;
  lock_time : LockTime;
  output : list TxOut;
}.

(** [EcdsaSighashType] and its [u32] encoding. *)
Inductive EcdsaSighashType : Type :=
| All | None_ | Single
| AllPlusAnyoneCanPay | NonePlusAnyoneCanPay | SinglePlusAnyoneCanPay.

Definition EcdsaSighashType_to_u32 (t : EcdsaSighashType) : N :=
  match t with
  | All => 0x01 | None_ => 0x02 | Single => 0x03
  | AllPlusAnyoneCanPay => 0x81 | NonePlusAnyoneCanPay => 0x82
  | SinglePlusAnyoneCanPay => 0x83
  end.

(** [EcdsaSighashType::from_standard]: [None] is the
    [NonStandardSighashTypeError]. *)
Definition EcdsaSighashType_from_standard (n : N) : option EcdsaSighashType :=
  if decide (n = 0x01) then Some All
  else if decide (n = 0x02) then Some None_
  else if decide (n = 0x03) then Some Single
  else if decide (n = 0x81) then Some AllPlusAnyoneCanPay
  else if decide (n = 0x82) then Some NonePlusAnyoneCanPay
  else if decide (n = 0x83) then Some SinglePlusAnyoneCanPay
  else None.

#[global] Instance EcdsaSighashType_eq_dec : EqDecision EcdsaSighashType.
Proof. solve_decision. Defined.

(** [PsbtSighashType] wraps a [u32]; [ecdsa_hash_ty] is [from_standard]. *)
Definition PsbtSighashType := N.
Definition ecdsa_hash_ty (t : PsbtSighashType) : option EcdsaSighashType :=
  EcdsaSighashType_from_standard t.

(** [ecdsa::Signature]: the signature and the sighash type it commits to. *)
Record EcdsaSignature := mkEcdsaSignature {
  ecdsa_sig : N;
  ecdsa_sighash_type : EcdsaSighashType;
}.

(* ------------------------------------------------------------------ *)
(** ** [Input] (src/input.rs) *)

Record Input := mkInput {
  previous_txid : Txid;
  spent_output_index : N;                       (* u32 *)
  sequence : option N;
  min_time : option N;
  min_height : option N;
  non_witness_utxo : option Transaction;
  witness_utxo : option TxOut;
  partial_sigs : gmap N EcdsaSignature;
  sighash_type : option PsbtSighashType;
  redeem_script : option ScriptBuf;
  witness_script : option ScriptBuf;
  bip32_derivation : gmap N KeySource;
  final_script_sig : option ScriptBuf;
  final_script_witness : option Witness;
  ripemd160_preimages : gmap N (list N);
  sha256_preimages : gmap N (list N);
  hash160_preimages : gmap N (list N);
  hash256_preimages : gmap N (list N);
  tap_key_sig : option N;
  tap_script_sigs : gmap (N * N) N;
  tap_scripts : gmap N (ScriptBuf * N);
  tap_key_origins : gmap N (list N * KeySource);
  tap_internal_key : option N;
  tap_merkle_root : option N;
}.

(** An input with only its identifying fields set. *)
Definition Input_new (txid : Txid) (vout : N) : Input :=
  mkInput txid vout None None None None None ∅ None None None ∅ None None
    ∅ ∅ ∅ ∅ None ∅ ∅ ∅ None None.

(** [Option::is_some] and [Option::is_none]. *)
Definition is_some {A} (o : option A) : bool :=
  match o with Some _ => true | None => false end.
Definition is_none {A} (o : option A) : bool := negb (is_some o).

Definition has_lock_time (i : Input) : bool :=
  is_some (min_time i) || is_some (min_height i).

Definition requires_time_based_lock_time (i : Input) : bool :=
  is_some (min_time i) && is_none (min_height i).

Definition requires_height_based_lock_time (i : Input) : bool :=
  is_some (min_height i) && is_none (min_time i).

Definition is_satisfied_with_height_based_lock_time (i : Input) : bool :=
  requires_height_based_lock_time i
  || is_some (min_time i) && is_some (min_height i)
  || is_none (min_time i) && is_none (min_height i).

(* ------------------------------------------------------------------ *)
(** ** [Output] (src/output.rs) *)

Record Output := mkOutput {
  amount : N;
  script_pubkey : ScriptBuf;
  out_redeem_script : option ScriptBuf;
  out_witness_script : option ScriptBuf;
  out_bip32_derivation : gmap N KeySource;
  out_tap_internal_key : option N;
  tap_tree : option N;
  out_tap_key_origins : gmap N (list N * KeySource);
}.

Definition Output_new (amt : N) (spk : ScriptBuf) : Output :=
  mkOutput amt spk None None ∅ None None ∅.

(* ------------------------------------------------------------------ *)
(** ** [Psbt] (src/lib.rs) *)

Record Psbt := mkPsbt {
  tx_version : Z;                        (* transaction::Version, an i32 *)
  fallback_lock_time : LockTime;
  input_count : N;                       (* usize *)
  output_count : N;                      (* usize *)
  tx_modifiable_flags : N;               (* u8 *)
  xpub : gmap N KeySource;
  inputs : list Input;
  outputs : list Output;
}.

(** The [usize] range of a 64-bit target. *)
Definition usize_modulus : N := 2 ^ 64.

(* ------------------------------------------------------------------ *)
(** ** Lock time resolution ([Psbt::determine_lock_time]) *)

(** [Ord for Option<T>]: [None] is below every [Some]. *)
Definition option_le (a b : option N) : bool :=
  match a, b with
  | None, _ => true
  | Some _, None => false
  | Some x, Some y => x <=? y
  end.

(** [Iterator::max]: [None] on an empty iterator, otherwise the fold of
    [cmp::max_by], which returns the later element on ties. *)
Definition iter_max (l : list (option N)) : option (option N) :=
  match l with
  | [] => None
  | x :: xs => Some (fold_left (fun acc y => if option_le acc y then y else acc) xs x)
  end.

Inductive DetermineLockTimeError : Type := DetermineLockTimeError_.

Definition determine_lock_time (p : Psbt) : outcome LockTime DetermineLockTimeError :=
  let require_time_based_lock_time :=
    existsb requires_time_based_lock_time (inputs p) in
  let require_height_based_lock_time :=
    existsb requires_height_based_lock_time (inputs p) in
  if require_time_based_lock_time && require_height_based_lock_time then
    Err DetermineLockTimeError_
  else
    let have_lock_time := existsb has_lock_time (inputs p) in
    if have_lock_time then
      let all_inputs_satisfied_with_height_based_lock_time :=
        forallb is_satisfied_with_height_based_lock_time (inputs p) in
      if all_inputs_satisfied_with_height_based_lock_time then
        (* the two [expect]s *)
        match iter_max (map min_height (inputs p)) with
        | Some (Some height) => Ok (Blocks height)
        | _ => Panic
        end
      else
        match iter_max (map min_time (inputs p)) with
        | Some (Some time) => Ok (Seconds time)
        | _ => Panic
        end
    else Ok (fallback_lock_time p).

(** The three-step algorithm of the spec (section 4.4), in its own words:
    the maximum of the values set, as a fold of [N.max]. *)
Definition lock_time_spec (p : Psbt) : outcome LockTime DetermineLockTimeError :=
  if existsb requires_time_based_lock_time (inputs p)
     && existsb requires_height_based_lock_time (inputs p) then
    Err DetermineLockTimeError_
  else if negb (existsb has_lock_time (inputs p)) then
    Ok (fallback_lock_time p)
  else if forallb is_satisfied_with_height_based_lock_time (inputs p) then
    Ok (Blocks (fold_right N.max 0 (omap min_height (inputs p))))
  else
    Ok (Seconds (fold_right N.max 0 (omap min_time (inputs p)))).

(* ------------------------------------------------------------------ *)
(** ** The Combiner *)

Inductive CombineError : Type :=
| TxVersionMismatch (this that : Z)
| InconsistentKeySourcesError (xpub : N)
| PreviousTxidMismatch (this that : Txid)
| SpentOutputIndexMismatch (this that : N)
| AmountMismatch (this that : N)
| ScriptPubkeyMismatch (this that : ScriptBuf).

(** [combine_option!]: [self.thing] becomes [other.thing] iff it is [None]. *)
Definition combine_option {A} (slf other : option A) : option A :=
  match slf, other with
  | None, Some thing => Some thing
  | _, _ => slf
  end.

(** [combine_map!] is [self.thing.extend(other.thing)]: [BTreeMap::extend]
    inserts the entries of [other] one by one, in key order. *)
Definition combine_map `{Countable K} {V} (slf other : gmap K V) : gmap K V :=
  fold_left (fun acc kv => <[kv.1 := kv.2]> acc) (map_to_list other) slf.

(** [Input::combine]. *)
Definition Input_combine (slf other : Input) : outcome Input CombineError :=
  if decide (previous_txid slf <> previous_txid other) then
    Err (PreviousTxidMismatch (previous_txid slf) (previous_txid other))
  else if decide (spent_output_index slf <> spent_output_index other) then
    Err (SpentOutputIndexMismatch (spent_output_index slf) (spent_output_index other))
  else
    let nwu := combine_option (non_witness_utxo slf) (non_witness_utxo other) in
    (* "Clear out any non-witness UTXO when we set a witness one" *)
    let '(wu, nwu) :=
      match witness_utxo slf, witness_utxo other with
      | None, Some w => (Some w, None)
      | w, _ => (w, nwu)
      end in
    Ok {|
      previous_txid := previous_txid slf;
      spent_output_index := spent_output_index slf;
      sequence := combine_option (sequence slf) (sequence other);
      min_time := combine_option (min_time slf) (min_time other);
      min_height := combine_option (min_height slf) (min_height other);
      non_witness_utxo := nwu;
      witness_utxo := wu;
      partial_sigs := combine_map (partial_sigs slf) (partial_sigs other);
      (* sighash_type is not combined ("TODO: Why do we not combine ...") *)
      sighash_type := sighash_type slf;
      redeem_script := combine_option (redeem_script slf) (redeem_script other);
      witness_script := combine_option (witness_script slf) (witness_script other);
      bip32_derivation := combine_map (bip32_derivation slf) (bip32_derivation other);
      final_script_sig := combine_option (final_script_sig slf) (final_script_sig other);
      final_script_witness :=
        combine_option (final_script_witness slf) (final_script_witness other);
      ripemd160_preimages :=
        combine_map (ripemd160_preimages slf) (ripemd160_preimages other);
      sha256_preimages := combine_map (sha256_preimages slf) (sha256_preimages other);
      hash160_preimages := combine_map (hash160_preimages slf) (hash160_preimages other);
      hash256_preimages := combine_map (hash256_preimages slf) (hash256_preimages other);
      tap_key_sig := combine_option (tap_key_sig slf) (tap_key_sig other);
      tap_script_sigs := combine_map (tap_script_sigs slf) (tap_script_sigs other);
      tap_scripts := combine_map (tap_scripts slf) (tap_scripts other);
      tap_key_origins := combine_map (tap_key_origins slf) (tap_key_origins other);
      tap_internal_key := combine_option (tap_internal_key slf) (tap_internal_key other);
      tap_merkle_root := combine_option (tap_merkle_root slf) (tap_merkle_root other);
    |}.

(** [Output::combine].  Its [proprietaries] and [unknowns] lines name
    fields the [Output] struct does not have; they merge nothing. *)
Definition Output_combine (slf other : Output) : outcome Output CombineError :=
  if decide (amount slf <> amount other) then
    Err (AmountMismatch (amount slf) (amount other))
  else if decide (script_pubkey slf <> script_pubkey other) then
    Err (ScriptPubkeyMismatch (script_pubkey slf) (script_pubkey other))
  else
    Ok {|
      amount := amount slf;
      script_pubkey := script_pubkey slf;
      out_redeem_script := combine_option (out_redeem_script slf) (out_redeem_script other);
      out_witness_script :=
        combine_option (out_witness_script slf) (out_witness_script other);
      out_bip32_derivation :=
        combine_map (out_bip32_derivation slf) (out_bip32_derivation other);
      out_tap_internal_key :=
        combine_option (out_tap_internal_key slf) (out_tap_internal_key other);
      tap_tree := combine_option (tap_tree slf) (tap_tree other);
      out_tap_key_origins :=
        combine_map (out_tap_key_origins slf) (out_tap_key_origins other);
    |}.

(** One iteration of the xpub loop of [Psbt::combine]: [(fingerprint1,
    derivation1)] comes from [other], [(fingerprint2, derivation2)] is the
    entry already in [self].  The [else if] slices
    [derivation1[derivation1.len() - derivation2.len()..]], which panics when
    [derivation1] is the shorter path. *)
Definition merge_xpub (m : gmap N KeySource) (x : N) (ks1 : KeySource)
    : outcome (gmap N KeySource) CombineError :=
  let '(fingerprint1, derivation1) := ks1 in
  match m !! x : option KeySource with
  | None => Ok (<[x := (fingerprint1, derivation1)]> m)
  | Some (fingerprint2, derivation2) =>
      if bool_decide (derivation1 = derivation2 /\ fingerprint1 = fingerprint2)
         || (Nat.ltb (length derivation1) (length derivation2)
             && bool_decide (derivation1 =
                  drop (length derivation2 - length derivation1) derivation2))
      then Ok m
      else if Nat.ltb (length derivation1) (length derivation2) then Panic
      else if bool_decide (derivation2 =
                drop (length derivation1 - length derivation2) derivation1)
      then Ok (<[x := (fingerprint1, derivation1)]> m)
      else Err (InconsistentKeySourcesError x)
  end.

(** [for (xpub, (fingerprint1, derivation1)) in other.xpubs { ... }]. *)
Fixpoint merge_xpubs (m : gmap N KeySource) (entries : list (N * KeySource))
    : outcome (gmap N KeySource) CombineError :=
  match entries with
  | [] => Ok m
  | (x, ks) :: rest => let! m' := merge_xpub m x ks in merge_xpubs m' rest
  end.

(** [self.input_count += other.input_count] on a [usize]. *)
Definition usize_add {E} (a b : N) : outcome N E :=
  if a + b <? usize_modulus then Ok (a + b) else Panic.

(** [Psbt::combine], the global part of the merge. *)
Definition Psbt_combine (slf other : Psbt) : outcome Psbt CombineError :=
  if decide (tx_version slf <> tx_version other) then
    Err (TxVersionMismatch (tx_version slf) (tx_version other))
  else
    let! ic := usize_add (input_count slf) (input_count other) in
    let! oc := usize_add (output_count slf) (output_count other) in
    let! xp := merge_xpubs (xpub slf) (map_to_list (xpub other)) in
    Ok {| tx_version := tx_version slf;
          fallback_lock_time := fallback_lock_time slf;
          input_count := ic;
          output_count := oc;
          tx_modifiable_flags := tx_modifiable_flags slf;
          xpub := xp;
          inputs := inputs slf;
          outputs := outputs slf |}.

(** [for (s, o) in self.xs.iter_mut().zip(other.xs.into_iter()) { s.combine(o)?; }]:
    the pairs stop at the shorter sequence, the rest of [self.xs] is kept. *)
Fixpoint zip_combine {A} (f : A -> A -> outcome A CombineError) (xs ys : list A)
    : outcome (list A) CombineError :=
  match xs, ys with
  | x :: xs', y :: ys' =>
      let! x' := f x y in
      let! rest := zip_combine f xs' ys' in
      Ok (x' :: rest)
  | _, _ => Ok xs
  end.

(** [Psbt::combine_with]; its first line [self.global.combine(other.global)]
    is the global merge [Psbt::combine]. *)
Definition combine_with (slf other : Psbt) : outcome Psbt CombineError :=
  let! g := Psbt_combine slf other in
  let! ins := zip_combine Input_combine (inputs g) (inputs other) in
  let! outs := zip_combine Output_combine (outputs g) (outputs other) in
  Ok {| tx_version := tx_version g;
        fallback_lock_time := fallback_lock_time g;
        input_count := input_count g;
        output_count := output_count g;
        tx_modifiable_flags := tx_modifiable_flags g;
        xpub := xpub g;
        inputs := ins;
        outputs := outs |}.

(** The free function [combine(this, that)]. *)
Definition combine (this that : Psbt) : outcome Psbt CombineError :=
  combine_with this that.

(* ------------------------------------------------------------------ *)
(** ** [Input::funding_utxo] and [Finalizer::new] *)

Inductive FundingUtxoError : Type :=
| OutOfBounds (vout len : nat)
| MissingUtxo.

Definition funding_utxo (i : Input) : outcome TxOut FundingUtxoError :=
  match witness_utxo i with
  | Some utxo => Ok utxo
  | None =>
      match non_witness_utxo i with
      | Some tx =>
          let vout := N.to_nat (spent_output_index i) in
          match nth_error (output tx) vout with
          | Some utxo => Ok utxo
          | None => Err (OutOfBounds vout (length (output tx)))
          end
      | None => Err MissingUtxo
      end
  end.

Inductive PartialSigsSighashTypeError : Type :=
| NonStandardInputSighashType (input_index : nat) (ty : N)
| NonStandardPartialSigsSighashType (input_index : nat) (ty : N)
| WrongSighashFlag (input_index : nat) (got required : EcdsaSighashType) (pubkey : N).

Inductive FinalizerError : Type :=
| FundingUtxo (e : FundingUtxoError)
| DetermineLockTime (e : DetermineLockTimeError)
| PartialSigsSighashType (e : PartialSigsSighashTypeError).

(** The inner loop over [&input.partial_sigs]. *)
Fixpoint check_sigs (input_index : nat) (target : EcdsaSighashType)
    (sigs : list (N * EcdsaSignature)) : outcome unit PartialSigsSighashTypeError :=
  match sigs with
  | [] => Ok tt
  | (key, sig) :: rest =>
      let raw := EcdsaSighashType_to_u32 (ecdsa_sighash_type sig) in
      let! flag := match EcdsaSighashType_from_standard raw with
                   | Some f => Ok f
                   | None => Err (NonStandardPartialSigsSighashType input_index raw)
                   end in
      if decide (target <> flag) then Err (WrongSighashFlag input_index flag target key)
      else check_sigs input_index target rest
  end.

(** The outer loop over [self.inputs.iter().enumerate()]. *)
Fixpoint check_inputs_sighash (input_index : nat) (l : list Input)
    : outcome unit PartialSigsSighashTypeError :=
  match l with
  | [] => Ok tt
  | input :: rest =>
      let! target := match sighash_type input with
                     | Some t => match ecdsa_hash_ty t with
                                 | Some e => Ok e
                                 | None => Err (NonStandardInputSighashType input_index t)
                                 end
                     | None => Ok All
                     end in
      let! _ := check_sigs input_index target (map_to_list (partial_sigs input)) in
      check_inputs_sighash (S input_index) rest
  end.

Definition check_partial_sigs_sighash_type (p : Psbt)
    : outcome unit PartialSigsSighashTypeError :=
  check_inputs_sighash 0 (inputs p).

(** [input.funding_utxo()?] for every input, in order. *)
Fixpoint all_funding_utxos (l : list Input) : outcome unit FundingUtxoError :=
  match l with
  | [] => Ok tt
  | i :: rest => let! _ := funding_utxo i in all_funding_utxos rest
  end.

(** [Finalizer::new]: the funding UTXO of every input, then the lock time,
    then the sighash types of the partial signatures. *)
Definition Finalizer_new (p : Psbt) : outcome Psbt FinalizerError :=
  let! _ := map_err FundingUtxo (all_funding_utxos (inputs p)) in
  let! _ := map_err DetermineLockTime (determine_lock_time p) in
  let! _ := map_err PartialSigsSighashType (check_partial_sigs_sighash_type p) in
  Ok p.

(* ------------------------------------------------------------------ *)
(** ** The output's [assert_is_valid_v0] (src/output.rs) *)

(** The loosely typed wire record ([bitcoin::psbt]) with the fields the
    version checks read; every field is optional. *)
Record WireRecord := mkWireRecord {
  w_sequence : option N;
  w_amount : option N;
  w_script_pubkey : option ScriptBuf;
}.

(** The wire record of an output: [sequence] is an input key, so it is
    never present on an output. *)
Definition wire_output (amt : option N) (spk : option ScriptBuf) : WireRecord :=
  mkWireRecord None amt spk.

Inductive OutputV0InvalidError : Type :=
| HasAmount
| HasScriptPubkey.

Definition output_assert_is_valid_v0 (input : WireRecord) : outcome unit OutputV0InvalidError :=
  if is_some (w_sequence input) then Err HasAmount
  else if is_some (w_script_pubkey input) then Err HasScriptPubkey
  else Ok tt.

(* ------------------------------------------------------------------ *)
(** ** The transaction modification flags (src/lib.rs) *)

Definition INPUTS_MODIFIABLE : N := N.shiftl 0x01 0.
Definition OUTPUTS_MODIFIABLE : N := N.shiftl 0x01 1.
Definition SIGHASH_SINGLE : N := N.shiftl 0x01 2.

(** [!x] on a [u8]. *)
Definition u8_not (x : N) : N := N.lxor x 0xFF.

(** The document with its [tx_modifiable_flags] replaced. *)
Definition with_tx_modifiable_flags (p : Psbt) (flags : N) : Psbt :=
  {| tx_version := tx_version p;
     fallback_lock_time := fallback_lock_time p;
     input_count := input_count p;
     output_count := output_count p;
     tx_modifiable_flags := flags;
     xpub := xpub p;
     inputs := inputs p;
     outputs := outputs p |}.

Definition set_inputs_modifiable_flag (p : Psbt) : Psbt :=
  with_tx_modifiable_flags p (N.lor (tx_modifiable_flags p) INPUTS_MODIFIABLE).
Definition set_outputs_modifiable_flag (p : Psbt) : Psbt :=
  with_tx_modifiable_flags p (N.lor (tx_modifiable_flags p) OUTPUTS_MODIFIABLE).
Definition set_sighash_single_flag (p : Psbt) : Psbt :=
  with_tx_modifiable_flags p (N.lor (tx_modifiable_flags p) SIGHASH_SINGLE).
Definition clear_inputs_modifiable_flag (p : Psbt) : Psbt :=
  with_tx_modifiable_flags p (N.land (tx_modifiable_flags p) (u8_not INPUTS_MODIFIABLE)).
Definition clear_outputs_modifiable_flag (p : Psbt) : Psbt :=
  with_tx_modifiable_flags p (N.land (tx_modifiable_flags p) (u8_not OUTPUTS_MODIFIABLE)).
Definition clear_sighash_single_flag (p : Psbt) : Psbt :=
  with_tx_modifiable_flags p (N.land (tx_modifiable_flags p) (u8_not SIGHASH_SINGLE)).

(** [self.tx_modifiable_flags & MASK > 0] ([&] binds tighter than [>]). *)
Definition is_inputs_modifiable (p : Psbt) : bool :=
  0 <? N.land (tx_modifiable_flags p) INPUTS_MODIFIABLE.
Definition is_outputs_modifiable (p : Psbt) : bool :=
  0 <? N.land (tx_modifiable_flags p) OUTPUTS_MODIFIABLE.
Definition has_sighash_single (p : Psbt) : bool :=
  0 <? N.land (tx_modifiable_flags p) SIGHASH_SINGLE.

(** The three flags as the queries report them. *)
Definition flags_view (p : Psbt) : bool * bool * bool :=
  (is_inputs_modifiable p, is_outputs_modifiable p, has_sighash_single p).

(* ------------------------------------------------------------------ *)
(** ** The Creator, Constructor and Updater roles (src/roles) *)

Record Creator := MkCreator { creator_psbt : Psbt }.

(** The lock time and version setters of [Creator]. *)
Definition Creator_fallback_lock_time (c : Creator) (fallback : LockTime) : Creator :=
  let p := creator_psbt c in
  MkCreator {| tx_version := tx_version p; fallback_lock_time := fallback;
               input_count := input_count p; output_count := output_count p;
               tx_modifiable_flags := tx_modifiable_flags p; xpub := xpub p;
               inputs := inputs p; outputs := outputs p |}.
Definition Creator_transaction_version (c : Creator) (version : Z) : Creator :=
  let p := creator_psbt c in
  MkCreator {| tx_version := version; fallback_lock_time := fallback_lock_time p;
               input_count := input_count p; output_count := output_count p;
               tx_modifiable_flags := tx_modifiable_flags p; xpub := xpub p;
               inputs := inputs p; outputs := outputs p |}.
Definition Creator_sighash_single (c : Creator) : Creator :=
  MkCreator (set_sighash_single_flag (creator_psbt c)).
Definition Creator_inputs_modifiable (c : Creator) : Creator :=
  MkCreator (set_inputs_modifiable_flag (creator_psbt c)).
Definition Creator_outputs_modifiable (c : Creator) : Creator :=
  MkCreator (set_outputs_modifiable_flag (creator_psbt c)).

(** The marker types of [Constructor<T>]. *)
Inductive ModKind : Type :=
| Modifiable
| InputsOnlyModifiable
| OutputsOnlyModifiable.

(** [Constructor<T>(Psbt, PhantomData<T>)]. *)
Record Constructor (T : ModKind) := MkConstructor { ctor_psbt : Psbt }.
Arguments MkConstructor {T} _.
Arguments ctor_psbt {T} _.

Definition constructor_modifiable (c : Creator) : Constructor Modifiable :=
  let psbt := set_outputs_modifiable_flag (set_inputs_modifiable_flag (creator_psbt c)) in
  MkConstructor psbt.
Definition constructor_inputs_only_modifiable (c : Creator) : Constructor InputsOnlyModifiable :=
  let psbt := clear_outputs_modifiable_flag (set_inputs_modifiable_flag (creator_psbt c)) in
  MkConstructor psbt.
Definition constructor_outputs_only_modifiable (c : Creator) : Constructor OutputsOnlyModifiable :=
  let psbt := set_outputs_modifiable_flag (clear_inputs_modifiable_flag (creator_psbt c)) in
  MkConstructor psbt.

Inductive InputsNotModifiableError : Type := InputsNotModifiableError_.
Inductive OutputsNotModifiableError : Type := OutputsNotModifiableError_.
Inductive PsbtNotModifiableError : Type :=
| Outputs (e : OutputsNotModifiableError)
| Inputs (e : InputsNotModifiableError).

(** [Constructor::<Modifiable>::from_psbt]. *)
Definition Constructor_Modifiable_from_psbt (psbt : Psbt)
    : outcome (Constructor Modifiable) PsbtNotModifiableError :=
  if negb (is_inputs_modifiable psbt) then Err (Inputs InputsNotModifiableError_)
  else if negb (is_outputs_modifiable psbt) then Err (Outputs OutputsNotModifiableError_)
  else Ok (MkConstructor psbt).

(** [Constructor::<InputsOnlyModifiable>::from_psbt]. *)
Definition Constructor_InputsOnly_from_psbt (psbt : Psbt)
    : outcome (Constructor InputsOnlyModifiable) InputsNotModifiableError :=
  if is_inputs_modifiable psbt then Ok (MkConstructor psbt)
  else Err InputsNotModifiableError_.

(** [Constructor::<OutputsOnlyModifiable>::from_psbt]. *)
Definition Constructor_OutputsOnly_from_psbt (psbt : Psbt)
    : outcome (Constructor OutputsOnlyModifiable) OutputsNotModifiableError :=
  if is_outputs_modifiable psbt then Ok (MkConstructor psbt)
  else Err OutputsNotModifiableError_.

Definition Constructor_no_more_inputs {T} (c : Constructor T) : Constructor T :=
  MkConstructor (clear_inputs_modifiable_flag (ctor_psbt c)).
Definition Constructor_no_more_outputs {T} (c : Constructor T) : Constructor T :=
  MkConstructor (clear_outputs_modifiable_flag (ctor_psbt c)).

Definition Constructor_into_inner {T} (c : Constructor T)
    : outcome Psbt DetermineLockTimeError :=
  let! _ := determine_lock_time (ctor_psbt c) in
  Ok (ctor_psbt c).

(** [input] (of [Constructor<Modifiable>] and
    [Constructor<InputsOnlyModifiable>]): [self.0.inputs.push(input);
    self.0.input_count += 1], a [usize] addition. *)
Definition Constructor_input {T} (c : Constructor T) (input : Input)
    : outcome (Constructor T) Empty_set :=
  let p := ctor_psbt c in
  let! ic := usize_add (input_count p) 1 in
  Ok (MkConstructor
        {| tx_version := tx_version p; fallback_lock_time := fallback_lock_time p;
           input_count := ic; output_count := output_count p;
           tx_modifiable_flags := tx_modifiable_flags p; xpub := xpub p;
           inputs := inputs p ++ [input]; outputs := outputs p |}).

(** [output] (of [Constructor<Modifiable>] and
    [Constructor<OutputsOnlyModifiable>]). *)
Definition Constructor_output {T} (c : Constructor T) (output : Output)
    : outcome (Constructor T) Empty_set :=
  let p := ctor_psbt c in
  let! oc := usize_add (output_count p) 1 in
  Ok (MkConstructor
        {| tx_version := tx_version p; fallback_lock_time := fallback_lock_time p;
           input_count := input_count p; output_count := oc;
           tx_modifiable_flags := tx_modifiable_flags p; xpub := xpub p;
           inputs := inputs p; outputs := outputs p ++ [output] |}).

Record Updater := MkUpdater { updater_psbt : Psbt }.

(** [Updater::from_psbt]. *)
Definition Updater_from_psbt (psbt : Psbt) : outcome Updater DetermineLockTimeError :=
  let! _ := determine_lock_time psbt in
  Ok (MkUpdater psbt).

(** [Constructor::updater]: [Updater::from_psbt(self.no_more_inputs()
    .no_more_outputs().psbt()?)].  [Constructor] has no [psbt] method; the
    accessor with the type [?] needs here, [Result<Psbt,
    DetermineLockTimeError>], is [into_inner], which is used. *)
Definition Constructor_updater {T} (c : Constructor T) : outcome Updater DetermineLockTimeError :=
  let! p := Constructor_into_inner (Constructor_no_more_outputs (Constructor_no_more_inputs c)) in
  Updater_from_psbt p.

(* ------------------------------------------------------------------ *)
(** ** Finalizing and extracting (src/input.rs, src/roles/extractor.rs) *)

(** [Input::lock_time]. *)
Definition Input_lock_time (i : Input) : LockTime :=
  match min_height i, min_time i with
  | Some height, Some _ => Blocks height
  | Some height, None => Blocks height
  | None, Some time => Seconds time
  | None, None => LockTime_ZERO
  end.

(** [Input::is_finalized]. *)
Definition is_finalized (i : Input) : bool :=
  is_some (final_script_sig i) && is_some (final_script_witness i).


Inductive FinalizeError : Type := EmptyWitness.

(** [Input::finalize].  Its first line, [debug_assert!(self.has_funding_utxo())],
    names a method the crate does not define and is not modelled; the
    theorems about [Input_finalize] assume a funding UTXO. *)
Definition Input_finalize (i : Input) (final_script_sig : ScriptBuf)
    (final_script_witness : Witness) : outcome Input FinalizeError :=
  let ret fss fsw :=
    mkInput (previous_txid i) (spent_output_index i)
      None None None                                (* sequence, min_time, min_height *)
      (non_witness_utxo i) (witness_utxo i)
      ∅ None None None ∅                            (* partial_sigs .. bip32_derivation *)
      fss fsw
      ∅ ∅ ∅ ∅                                       (* the preimage maps *)
      None ∅ ∅ ∅ None None in                       (* the Taproot fields *)
  if is_some (witness_utxo i) then
    match final_script_witness with
    | [] => Err EmptyWitness
    | _ => Ok (ret (Some final_script_sig) (Some final_script_witness))
    end
  else Ok (ret (Some final_script_sig) None).

Inductive ExtractError : Type :=
| PsbtNotFinalized
| Extract_DetermineLockTime (e : DetermineLockTimeError).

(** [Extractor::new]. *)
Definition Extractor_new (psbt : Psbt) : outcome Psbt ExtractError :=
  if existsb (fun input => negb (is_finalized input)) (inputs psbt) then Err PsbtNotFinalized
  else
    let! _ := map_err Extract_DetermineLockTime (determine_lock_time psbt) in
    Ok psbt.

(* ------------------------------------------------------------------ *)
(** ** Conversions from and to the [rust-bitcoin] records *)










(** [bitcoin::psbt::Output]. *)
Record WireOutput := mkWireOutput {
  wo_redeem_script : option ScriptBuf;
  wo_witness_script : option ScriptBuf;
  wo_bip32_derivation : gmap N KeySource;
  wo_amount : option N;
  wo_script_pubkey : option ScriptBuf;
  wo_tap_internal_key : option N;
  wo_tap_tree : option N;
  wo_tap_key_origins : gmap N (list N * KeySource);
  wo_proprietary : gmap (list N) (list N);
  wo_unknown : gmap (list N) (list N);
}.




(** [Output::to_v2]. *)
Definition Output_to_v2 (o : Output) : WireOutput :=
  {| wo_redeem_script := out_redeem_script o;
     wo_witness_script := out_witness_script o;
     wo_bip32_derivation := out_bip32_derivation o;
     wo_amount := Some (amount o);
     wo_script_pubkey := Some (script_pubkey o);
     wo_tap_internal_key := out_tap_internal_key o;
     wo_tap_tree := tap_tree o;
     wo_tap_key_origins := out_tap_key_origins o;
     wo_proprietary := ∅;
     wo_unknown := ∅ |}.

(** [Output::to_v0]. *)
Definition Output_to_v0 (o : Output) : WireOutput :=
  let w := Output_to_v2 o in
  {| wo_redeem_script := wo_redeem_script w;
     wo_witness_script := wo_witness_script w;
     wo_bip32_derivation := wo_bip32_derivation w;
     wo_amount := None;
     wo_script_pubkey := None;
     wo_tap_internal_key := wo_tap_internal_key w;
     wo_tap_tree := wo_tap_tree w;
     wo_tap_key_origins := wo_tap_key_origins w;
     wo_proprietary := wo_proprietary w;
     wo_unknown := wo_unknown w |}.

(** [Output::tx_out]. *)
Definition Output_tx_out (o : Output) : TxOut := mkTxOut (amount o) (script_pubkey o).

(* ------------------------------------------------------------------ *)
(** ** Auxiliary definitions for the proofs *)

(** The value of [cmp::max] on [Option<N>]. *)
Definition omax (a b : option N) : option N :=
  match a, b with
  | None, o => o
  | o, None => o
  | Some x, Some y => Some (N.max x y)
  end.

Definition omax_all (l : list (option N)) : option N := fold_right omax None l.

(** When one xpub entry of [other] is accepted by the loop of
    [Psbt::combine] against the entry [ks2] already in [self]. *)
Definition xpub_compat (ks1 ks2 : KeySource) : bool :=
  let '(fingerprint1, derivation1) := ks1 in
  let '(fingerprint2, derivation2) := ks2 in
  bool_decide (derivation1 = derivation2 /\ fingerprint1 = fingerprint2)
  || (Nat.ltb (length derivation1) (length derivation2)
      && bool_decide (derivation1 =
           drop (length derivation2 - length derivation1) derivation2))
  || (negb (Nat.ltb (length derivation1) (length derivation2))
      && bool_decide (derivation2 =
           drop (length derivation1 - length derivation2) derivation1)).

Definition xpub_entry_ok (m : gmap N KeySource) (kv : N * KeySource) : bool :=
  match m !! kv.1 with None => true | Some ks2 => xpub_compat kv.2 ks2 end.

(** Every positional pair of records merges. *)
Definition pairs_ok {A} (f : A -> A -> outcome A CombineError) (xs ys : list A) : Prop :=
  forall n x y, xs !! n = Some x -> ys !! n = Some y -> is_ok (f x y) = true.

(** [pairs_ok] as a boolean test over the zipped sequences. *)
Definition pairs_okb {A} (f : A -> A -> outcome A CombineError) (xs ys : list A) : bool :=
  forallb (fun xy => is_ok (f xy.1 xy.2)) (zip xs ys).

(** [Option::or]: the first value if present, else the second. *)
Definition option_or {A} (a b : option A) : option A :=
  match a with Some v => Some v | None => b end.

(** The map-valued fields of [ir] are the unions of those of [ib] and [ia]
    in which [ib]'s entries win. *)
Definition input_maps_union (ia ib ir : Input) : Prop :=
  partial_sigs ir = partial_sigs ib ∪ partial_sigs ia /\
  bip32_derivation ir = bip32_derivation ib ∪ bip32_derivation ia /\
  ripemd160_preimages ir = ripemd160_preimages ib ∪ ripemd160_preimages ia /\
  sha256_preimages ir = sha256_preimages ib ∪ sha256_preimages ia /\
  hash160_preimages ir = hash160_preimages ib ∪ hash160_preimages ia /\
  hash256_preimages ir = hash256_preimages ib ∪ hash256_preimages ia /\
  tap_script_sigs ir = tap_script_sigs ib ∪ tap_script_sigs ia /\
  tap_scripts ir = tap_scripts ib ∪ tap_scripts ia /\
  tap_key_origins ir = tap_key_origins ib ∪ tap_key_origins ia.

Definition output_maps_union (oa ob or : Output) : Prop :=
  out_bip32_derivation or = out_bip32_derivation ob ∪ out_bip32_derivation oa /\
  out_tap_key_origins or = out_tap_key_origins ob ∪ out_tap_key_origins oa.

(** The optional scalar fields of the merged input [ir]: [ia]'s value if
    present, else [ib]'s, except [sighash_type] (always [ia]'s) and
    [non_witness_utxo] (cleared when the witness UTXO comes from [ib]). *)
Definition input_scalars_merged (ia ib ir : Input) : Prop :=
  sequence ir = option_or (sequence ia) (sequence ib) /\
  min_time ir = option_or (min_time ia) (min_time ib) /\
  min_height ir = option_or (min_height ia) (min_height ib) /\
  redeem_script ir = option_or (redeem_script ia) (redeem_script ib) /\
  witness_script ir = option_or (witness_script ia) (witness_script ib) /\
  final_script_sig ir = option_or (final_script_sig ia) (final_script_sig ib) /\
  final_script_witness ir = option_or (final_script_witness ia) (final_script_witness ib) /\
  tap_key_sig ir = option_or (tap_key_sig ia) (tap_key_sig ib) /\
  tap_internal_key ir = option_or (tap_internal_key ia) (tap_internal_key ib) /\
  tap_merkle_root ir = option_or (tap_merkle_root ia) (tap_merkle_root ib) /\
  witness_utxo ir = option_or (witness_utxo ia) (witness_utxo ib) /\
  non_witness_utxo ir =
    match witness_utxo ia, witness_utxo ib with
    | None, Some _ => None
    | _, _ => option_or (non_witness_utxo ia) (non_witness_utxo ib)
    end /\
  sighash_type ir = sighash_type ia.

(** ** Concrete documents *)

Definition example_txout : TxOut := mkTxOut 1000 [0x51].
Definition example_tx : Transaction := mkTransaction 2 LockTime_ZERO [example_txout].
Definition example_sig : EcdsaSignature := mkEcdsaSignature 11 All.
Definition example_sig' : EcdsaSignature := mkEcdsaSignature 22 All.

(** An input spending [1:0] with the given sequence, UTXOs, partial
    signatures and sighash type. *)
Definition example_input (seq : option N) (nwu : option Transaction) (wu : option TxOut)
    (sigs : gmap N EcdsaSignature) (sh : option PsbtSighashType) : Input :=
  mkInput 1 0 seq None None nwu wu sigs sh None None ∅ None None
    ∅ ∅ ∅ ∅ None ∅ ∅ ∅ None None.

(** A document whose counts are the lengths of its sequences. *)
Definition example_doc (ins : list Input) (outs : list Output) (xp : gmap N KeySource) : Psbt :=
  mkPsbt 2 LockTime_ZERO (N.of_nat (length ins)) (N.of_nat (length outs)) 0 xp ins outs.

(* ================================================================== *)
(** * Proofs *)

(** ** Lock time resolution *)

Lemma max_step_omax (a b : option N) :
  (if option_le a b then b else a) = omax a b.
Proof.
  destruct a as [x|], b as [y|]; simpl; try reflexivity.
  destruct (N.leb_spec x y); f_equal; lia.
Qed.

Lemma omax_assoc (a b c : option N) : omax a (omax b c) = omax (omax a b) c.
Proof. destruct a, b, c; simpl; try reflexivity; f_equal; lia. Qed.

Lemma omax_None_r (a : option N) : omax a None = a.
Proof. destruct a; reflexivity. Qed.

Lemma fold_left_omax (l : list (option N)) (a : option N) :
  fold_left omax l a = omax a (omax_all l).
Proof.
  revert a. induction l as [|o l IH]; intros a; simpl.
  - by rewrite omax_None_r.
  - rewrite IH. symmetry. apply omax_assoc.
Qed.

Lemma fold_left_max_step (l : list (option N)) (a : option N) :
  fold_left (fun acc y => if option_le acc y then y else acc) l a = fold_left omax l a.
Proof.
  revert a. induction l as [|o l IH]; intros a; simpl; [done|].
  by rewrite max_step_omax, IH.
Qed.

Lemma iter_max_cons (o : option N) (l : list (option N)) :
  iter_max (o :: l) = Some (omax_all (o :: l)).
Proof.
  unfold iter_max. f_equal.
  by rewrite fold_left_max_step, fold_left_omax.
Qed.

Lemma omap_cons {A B} (f : A -> option B) (x : A) (l : list A) :
  omap f (x :: l) = match f x with Some y => y :: omap f l | None => omap f l end.
Proof. reflexivity. Qed.

Lemma omax_all_map_None {A} (f : A -> option N) (l : list A) :
  omap f l = [] -> omax_all (map f l) = None.
Proof.
  induction l as [|x l IH]; [done|].
  rewrite omap_cons. cbn [map omax_all fold_right].
  destruct (f x); [discriminate|]. exact IH.
Qed.

Lemma omax_all_map {A} (f : A -> option N) (l : list A) :
  omap f l <> [] -> omax_all (map f l) = Some (fold_right N.max 0 (omap f l)).
Proof.
  induction l as [|x l IH]; [done|].
  rewrite omap_cons. change (omax_all (map f (x :: l))) with (omax (f x) (omax_all (map f l))).
  destruct (f x) as [y|]; intros Hne.
  - destruct (decide (omap f l = [])) as [He|He].
    + rewrite (omax_all_map_None f l He), He. simpl. f_equal. lia.
    + rewrite (IH He). reflexivity.
  - by apply IH.
Qed.

Lemma iter_max_map {A} (f : A -> option N) (l : list A) :
  omap f l <> [] -> iter_max (map f l) = Some (Some (fold_right N.max 0 (omap f l))).
Proof.
  intros Hne. destruct l as [|x l]; [simpl in Hne; congruence|].
  change (map f (x :: l)) with (f x :: map f l).
  rewrite iter_max_cons. change (f x :: map f l) with (map f (x :: l)).
  by rewrite omax_all_map.
Qed.

Lemma omap_nonempty {A B} (f : A -> option B) (l : list A) (x : A) (y : B) :
  In x l -> f x = Some y -> omap f l <> [].
Proof.
  induction l as [|z l IH]; [done|].
  rewrite omap_cons. intros [<-|Hin] Hf.
  - by rewrite Hf.
  - destruct (f z); [done|]. by apply IH.
Qed.

Lemma forallb_false_exists {A} (f : A -> bool) (l : list A) :
  forallb f l = false -> exists x, In x l /\ f x = false.
Proof.
  induction l as [|x l IH]; simpl; [discriminate|].
  destruct (f x) eqn:Hx; simpl.
  - intros H. destruct (IH H) as (y & Hy & Hfy). eauto.
  - intros _. eauto.
Qed.

(** C1: [determine_lock_time] is the three-step algorithm of the spec: it
    fails iff one input requires a time based and another a height based
    lock time; otherwise with no lock time field anywhere it returns the
    fallback lock time; otherwise, when every input is satisfied by a height
    based lock time, the maximum [min_height] set, else the maximum
    [min_time] set.  In particular it never reaches its [expect] panics. *)
Theorem determine_lock_time_three_steps (p : Psbt) :
  determine_lock_time p = lock_time_spec p.
Proof.
  unfold determine_lock_time, lock_time_spec.
  destruct (existsb requires_time_based_lock_time (inputs p)
            && existsb requires_height_based_lock_time (inputs p)) eqn:Hc;
    [reflexivity|].
  destruct (existsb has_lock_time (inputs p)) eqn:Hl; [|reflexivity].
  simpl. apply existsb_exists in Hl as (i & Hin & Hi).
  destruct (forallb is_satisfied_with_height_based_lock_time (inputs p)) eqn:Hs.
  - rewrite forallb_forall in Hs. specialize (Hs i Hin).
    unfold has_lock_time, is_satisfied_with_height_based_lock_time,
      requires_height_based_lock_time, is_none in *.
    destruct (min_height i) as [h|] eqn:Hh;
      [|destruct (min_time i); simpl in *; discriminate].
    by rewrite (iter_max_map min_height (inputs p) (omap_nonempty _ _ i h Hin Hh)).
  - apply forallb_false_exists in Hs as (j & Hjn & Hj).
    unfold is_satisfied_with_height_based_lock_time,
      requires_height_based_lock_time, is_none in Hj.
    destruct (min_time j) as [t|] eqn:Ht;
      [|destruct (min_height j); simpl in Hj; discriminate].
    by rewrite (iter_max_map min_time (inputs p) (omap_nonempty _ _ j t Hjn Ht)).
Qed.

(** ** The merge macros *)

Section Extend.
Context `{Countable K} {V : Type}.

Lemma fold_insert_union (l : list (K * V)) (m : gmap K V) :
  NoDup l.*1 ->
  fold_left (fun acc kv => <[kv.1 := kv.2]> acc) l m = list_to_map l ∪ m.
Proof.
  revert m. induction l as [|[k v] l IH]; intros m Hnd; cbn [fold_left fst snd].
  - by rewrite list_to_map_nil, map_empty_union.
  - cbn [fmap list_fmap fst] in Hnd. apply NoDup_cons in Hnd as [Hk Hnd].
    rewrite IH by done.
    rewrite list_to_map_cons, <-insert_union_l, <-insert_union_r; [done|].
    by apply not_elem_of_list_to_map_1.
Qed.

(** [extend] is the union in which the entries of [other] win. *)
Lemma combine_map_union (slf other : gmap K V) :
  combine_map slf other = other ∪ slf.
Proof.
  unfold combine_map. rewrite fold_insert_union.
  - by rewrite list_to_map_to_list.
  - apply NoDup_fst_map_to_list.
Qed.

Lemma combine_map_lookup (slf other : gmap K V) (k : K) :
  combine_map slf other !! k =
    match other !! k with Some v => Some v | None => slf !! k end.
Proof.
  rewrite combine_map_union, lookup_union.
  destruct (other !! k), (slf !! k); reflexivity.
Qed.

Lemma combine_map_self (m : gmap K V) : combine_map m m = m.
Proof. by rewrite combine_map_union, map_union_idemp. Qed.
End Extend.

Lemma combine_option_or {A} (slf other : option A) :
  combine_option slf other = match slf with Some v => Some v | None => other end.
Proof. by destruct slf, other. Qed.

Lemma combine_option_self {A} (o : option A) : combine_option o o = o.
Proof. by destruct o. Qed.

(** ** Pairing records by position *)

Lemma zip_combine_length {A} (f : A -> A -> outcome A CombineError) xs ys zs :
  zip_combine f xs ys = Ok zs -> length zs = length xs.
Proof.
  revert ys zs. induction xs as [|x xs IH]; intros [|y ys] zs; simpl;
    try (intros [= <-]; reflexivity).
  destruct (f x y); simpl; try discriminate.
  destruct (zip_combine f xs ys) eqn:E; simpl; try discriminate.
  intros [= <-]. simpl. f_equal. by eapply IH.
Qed.

Lemma zip_combine_pair {A} (f : A -> A -> outcome A CombineError) xs ys zs n x y :
  zip_combine f xs ys = Ok zs -> xs !! n = Some x -> ys !! n = Some y ->
  exists z, zs !! n = Some z /\ f x y = Ok z.
Proof.
  revert ys zs n. induction xs as [|x' xs IH]; intros [|y' ys] zs n; simpl;
    try (intros _ Hx Hy; destruct n; discriminate).
  destruct (f x' y') as [z'| |] eqn:Ef; simpl; try discriminate.
  destruct (zip_combine f xs ys) eqn:E; simpl; try discriminate.
  intros [= <-]. destruct n as [|n]; simpl.
  - intros [= ->] [= ->]. eauto.
  - intros Hx Hy. eapply IH; eauto.
Qed.

Lemma zip_combine_rest {A} (f : A -> A -> outcome A CombineError) xs ys zs :
  zip_combine f xs ys = Ok zs -> drop (length ys) zs = drop (length ys) xs.
Proof.
  revert ys zs. induction xs as [|x xs IH]; intros [|y ys] zs; simpl;
    try (intros [= <-]; reflexivity).
  destruct (f x y); simpl; try discriminate.
  destruct (zip_combine f xs ys) eqn:E; simpl; try discriminate.
  intros [= <-]. simpl. by eapply IH.
Qed.

(** Every pair merges: the zipped loop then succeeds. *)
Lemma zip_combine_ok {A} (f : A -> A -> outcome A CombineError) xs ys :
  (forall n x y, xs !! n = Some x -> ys !! n = Some y -> is_ok (f x y) = true) ->
  exists zs, zip_combine f xs ys = Ok zs.
Proof.
  revert ys. induction xs as [|x xs IH]; intros [|y ys] Hall; simpl; eauto.
  pose proof (Hall 0%nat x y eq_refl eq_refl) as Hxy.
  destruct (f x y) as [z| |]; simpl in Hxy; try discriminate.
  destruct (IH ys) as [zs ->].
  { intros n a b Ha Hb. exact (Hall (S n) a b Ha Hb). }
  simpl. eauto.
Qed.

(** ** The global merge *)

Lemma Psbt_combine_ok (a b g : Psbt) :
  Psbt_combine a b = Ok g ->
  tx_version a = tx_version b /\
  input_count g = input_count a + input_count b /\
  output_count g = output_count a + output_count b /\
  inputs g = inputs a /\ outputs g = outputs a /\
  merge_xpubs (xpub a) (map_to_list (xpub b)) = Ok (xpub g).
Proof.
  unfold Psbt_combine, usize_add.
  destruct (decide (tx_version a <> tx_version b)) as [|Hv]; [discriminate|].
  destruct (input_count a + input_count b <? usize_modulus); [|discriminate]. simpl.
  destruct (output_count a + output_count b <? usize_modulus); [|discriminate]. simpl.
  destruct (merge_xpubs _ _); simpl; try discriminate.
  intros [= <-]. simpl. repeat split; auto.
  destruct (decide (tx_version a = tx_version b)); tauto.
Qed.

Lemma combine_with_ok (a b r : Psbt) :
  combine_with a b = Ok r ->
  exists g, Psbt_combine a b = Ok g /\
    zip_combine Input_combine (inputs a) (inputs b) = Ok (inputs r) /\
    zip_combine Output_combine (outputs a) (outputs b) = Ok (outputs r) /\
    input_count r = input_count g /\ output_count r = output_count g /\
    xpub r = xpub g /\ tx_version r = tx_version g.
Proof.
  unfold combine_with.
  destruct (Psbt_combine a b) as [g| |] eqn:Eg; simpl; try discriminate.
  destruct (Psbt_combine_ok a b g Eg) as (_ & _ & _ & Hi & Ho & _).
  rewrite Hi, Ho.
  destruct (zip_combine Input_combine _ _) eqn:Ei; simpl; try discriminate.
  destruct (zip_combine Output_combine _ _) eqn:Eo; simpl; try discriminate.
  intros [= <-]. exists g. simpl. auto 10.
Qed.

(** ** When the Combiner fails *)

Lemma forallb_ext_In {A} (f g : A -> bool) (l : list A) :
  (forall x, In x l -> f x = g x) -> forallb f l = forallb g l.
Proof.
  induction l as [|x l IH]; intros H; simpl; [done|].
  rewrite (H x (or_introl eq_refl)), IH; [done|]. intros y Hy. apply H. by right.
Qed.

Lemma bind_is_ok {A B E} (o : outcome A E) (k : A -> outcome B E) :
  is_ok (bind o k) = true <-> exists x, o = Ok x /\ is_ok (k x) = true.
Proof.
  destruct o as [x| |]; simpl; split; intros H; try discriminate;
    try (destruct H as (y & Hy & _); discriminate); eauto.
  destruct H as (y & [= <-] & Hy). exact Hy.
Qed.

Lemma merge_xpub_is_ok (m : gmap N KeySource) (x : N) (ks : KeySource) :
  is_ok (merge_xpub m x ks) = xpub_entry_ok m (x, ks).
Proof.
  unfold merge_xpub, xpub_entry_ok, xpub_compat. simpl. destruct ks as [f1 d1].
  destruct (m !! x) as [[f2 d2]|]; [|reflexivity].
  destruct (bool_decide (d1 = d2 /\ f1 = f2)); [reflexivity|]. simpl.
  destruct (Nat.ltb (length d1) (length d2)); simpl.
  - destruct (bool_decide _); reflexivity.
  - destruct (bool_decide _); reflexivity.
Qed.

Lemma merge_xpub_other (m m' : gmap N KeySource) (x y : N) (ks : KeySource) :
  merge_xpub m x ks = Ok m' -> y <> x -> m' !! y = m !! y.
Proof.
  unfold merge_xpub. destruct ks as [f1 d1].
  destruct (m !! x) as [[f2 d2]|].
  - destruct (_ || _); [intros [= <-]; done|].
    destruct (Nat.ltb _ _); [discriminate|].
    destruct (bool_decide _); [|discriminate].
    intros [= <-] Hne. by rewrite lookup_insert_ne by congruence.
  - intros [= <-] Hne. by rewrite lookup_insert_ne by congruence.
Qed.

Lemma merge_xpubs_is_ok (m : gmap N KeySource) (l : list (N * KeySource)) :
  NoDup l.*1 -> is_ok (merge_xpubs m l) = forallb (xpub_entry_ok m) l.
Proof.
  revert m. induction l as [|[x ks] l IH]; intros m Hnd; [reflexivity|].
  cbn [fmap list_fmap fst] in Hnd. apply NoDup_cons in Hnd as [Hx Hnd].
  cbn [merge_xpubs forallb]. rewrite <-merge_xpub_is_ok.
  destruct (merge_xpub m x ks) as [m'| |] eqn:E; simpl; [|reflexivity|reflexivity].
  rewrite IH by done. apply forallb_ext_In. intros [y ks'] Hin.
  unfold xpub_entry_ok. simpl. rewrite (merge_xpub_other m m' x y ks E); [done|].
  intros ->. apply Hx. apply list_elem_of_In in Hin.
  exact (list_elem_of_fmap_2 fst l (x, ks') Hin).
Qed.

Ltac xpub_case :=
  first [ left; left; split; congruence
        | left; right; split; [lia|congruence]
        | right; split; [lia|congruence] ].

Lemma xpub_compat_sym (ks1 ks2 : KeySource) : xpub_compat ks1 ks2 = xpub_compat ks2 ks1.
Proof.
  destruct ks1 as [f1 d1], ks2 as [f2 d2]. unfold xpub_compat.
  apply Bool.eq_iff_eq_true.
  rewrite !orb_true_iff, !andb_true_iff, !negb_true_iff, !Nat.ltb_lt, !Nat.ltb_ge,
    !bool_decide_eq_true.
  destruct (Nat.lt_trichotomy (length d1) (length d2)) as [Hl|[Hl|Hl]].
  - split; intros [[[? ?]|[? ?]]|[? ?]]; try lia; xpub_case.
  - rewrite Hl, Nat.sub_diag, !drop_0.
    split; intros [[[? ?]|[? ?]]|[? ?]]; try lia; xpub_case.
  - split; intros [[[? ?]|[? ?]]|[? ?]]; try lia; xpub_case.
Qed.

(** The xpub loop succeeds iff every extended key present in both maps has
    compatible key sources. *)
Definition xpubs_compatible (mself mother : gmap N KeySource) : Prop :=
  forall x ks1 ks2, mother !! x = Some ks1 -> mself !! x = Some ks2 ->
    xpub_compat ks1 ks2 = true.

Lemma merge_xpubs_map_is_ok (mself mother : gmap N KeySource) :
  is_ok (merge_xpubs mself (map_to_list mother)) = true <-> xpubs_compatible mself mother.
Proof.
  rewrite merge_xpubs_is_ok by apply NoDup_fst_map_to_list.
  rewrite forallb_forall. unfold xpubs_compatible, xpub_entry_ok. split.
  - intros H x ks1 ks2 H1 H2.
    assert (In (x, ks1) (map_to_list mother)) as Hin.
    { apply list_elem_of_In. by apply elem_of_map_to_list. }
    specialize (H _ Hin). simpl in H. by rewrite H2 in H.
  - intros H [x ks1] Hin. simpl.
    apply list_elem_of_In, elem_of_map_to_list in Hin.
    destruct (mself !! x) eqn:E; [|done]. eauto.
Qed.

Lemma xpubs_compatible_sym (ma mb : gmap N KeySource) :
  xpubs_compatible ma mb <-> xpubs_compatible mb ma.
Proof.
  unfold xpubs_compatible. split; intros H x k1 k2 H1 H2;
    rewrite xpub_compat_sym; eauto.
Qed.

Lemma Psbt_combine_is_ok (a b : Psbt) :
  is_ok (Psbt_combine a b) = true <->
    tx_version a = tx_version b /\
    input_count a + input_count b < usize_modulus /\
    output_count a + output_count b < usize_modulus /\
    xpubs_compatible (xpub a) (xpub b).
Proof.
  unfold Psbt_combine, usize_add.
  destruct (decide (tx_version a <> tx_version b)) as [Hv|Hv].
  { simpl. split; [discriminate|]. intros (? & _). contradiction. }
  destruct (N.ltb_spec (input_count a + input_count b) usize_modulus) as [Hi|Hi];
    [|simpl; split; [discriminate|intros (_ & Hc & _); lia]].
  destruct (N.ltb_spec (output_count a + output_count b) usize_modulus) as [Ho|Ho];
    [|simpl; split; [discriminate|intros (_ & _ & Hc & _); lia]].
  simpl. rewrite <-merge_xpubs_map_is_ok.
  assert (tx_version a = tx_version b) by (apply dec_stable; exact Hv).
  destruct (merge_xpubs _ _); simpl; split; try done;
    intros (_ & _ & _ & Hx); discriminate.
Qed.

Lemma zip_combine_is_ok {A} (f : A -> A -> outcome A CombineError) xs ys :
  is_ok (zip_combine f xs ys) = true <-> pairs_ok f xs ys.
Proof.
  split.
  - destruct (zip_combine f xs ys) as [zs| |] eqn:E; simpl; try discriminate.
    intros _ n x y Hx Hy. destruct (zip_combine_pair f xs ys zs n x y E Hx Hy) as (z & _ & ->).
    reflexivity.
  - intros H. destruct (zip_combine_ok f xs ys H) as [zs ->]. reflexivity.
Qed.

Lemma pairs_ok_sym {A} (f : A -> A -> outcome A CombineError) xs ys :
  (forall x y, is_ok (f x y) = is_ok (f y x)) -> pairs_ok f xs ys -> pairs_ok f ys xs.
Proof. intros Hf H n x y Hx Hy. rewrite Hf. eauto. Qed.

Lemma Input_combine_is_ok (x y : Input) :
  is_ok (Input_combine x y) =
    bool_decide (previous_txid x = previous_txid y /\
                 spent_output_index x = spent_output_index y).
Proof.
  unfold Input_combine.
  destruct (decide (previous_txid x <> previous_txid y)) as [H|H].
  { rewrite bool_decide_false by tauto. reflexivity. }
  destruct (decide (spent_output_index x <> spent_output_index y)) as [H'|H'].
  { rewrite bool_decide_false by tauto. reflexivity. }
  rewrite bool_decide_true.
  - destruct (witness_utxo x), (witness_utxo y); reflexivity.
  - split; apply dec_stable; assumption.
Qed.

Lemma Input_combine_is_ok_sym (x y : Input) :
  is_ok (Input_combine x y) = is_ok (Input_combine y x).
Proof.
  rewrite !Input_combine_is_ok. apply bool_decide_ext. intuition congruence.
Qed.

Lemma Output_combine_is_ok (x y : Output) :
  is_ok (Output_combine x y) =
    bool_decide (amount x = amount y /\ script_pubkey x = script_pubkey y).
Proof.
  unfold Output_combine.
  destruct (decide (amount x <> amount y)) as [H|H].
  { rewrite bool_decide_false by tauto. reflexivity. }
  destruct (decide (script_pubkey x <> script_pubkey y)) as [H'|H'].
  { rewrite bool_decide_false by tauto. reflexivity. }
  rewrite bool_decide_true; [reflexivity|].
  split; apply dec_stable; assumption.
Qed.

Lemma Output_combine_is_ok_sym (x y : Output) :
  is_ok (Output_combine x y) = is_ok (Output_combine y x).
Proof.
  rewrite !Output_combine_is_ok. apply bool_decide_ext. intuition congruence.
Qed.

Lemma combine_with_is_ok (a b : Psbt) :
  is_ok (combine_with a b) = true <->
    is_ok (Psbt_combine a b) = true /\
    pairs_ok Input_combine (inputs a) (inputs b) /\
    pairs_ok Output_combine (outputs a) (outputs b).
Proof.
  unfold combine_with. rewrite !bind_is_ok. split.
  - intros (g & Hg & Hrest). rewrite Hg.
    destruct (Psbt_combine_ok a b g Hg) as (_ & _ & _ & Hi & Ho & _).
    rewrite bind_is_ok in Hrest. destruct Hrest as (ins & Hins & Hrest).
    rewrite bind_is_ok in Hrest. destruct Hrest as (outs & Houts & _).
    rewrite Hi in Hins. rewrite Ho in Houts.
    rewrite <-!zip_combine_is_ok, Hins, Houts. auto.
  - intros (Hg & Hi & Ho).
    destruct (Psbt_combine a b) as [g| |] eqn:Eg; try discriminate.
    destruct (Psbt_combine_ok a b g Eg) as (_ & _ & _ & Hgi & Hgo & _).
    exists g. split; [done|]. rewrite Hgi, Hgo.
    apply zip_combine_is_ok in Hi, Ho.
    destruct (zip_combine Input_combine _ _) as [ins| |]; try discriminate.
    destruct (zip_combine Output_combine _ _) as [outs| |]; try discriminate.
    reflexivity.
Qed.

Lemma pairs_okb_spec {A} (f : A -> A -> outcome A CombineError) xs ys :
  pairs_okb f xs ys = true <-> pairs_ok f xs ys.
Proof.
  unfold pairs_okb, pairs_ok. revert ys.
  induction xs as [|x xs IH]; intros [|y ys]; simpl; split; try done;
    try (intros _ n a b Ha Hb; destruct n; discriminate).
  - rewrite andb_true_iff, IH. intros [Hxy Hrest] [|n] a b Ha Hb; simpl in *.
    + by injection Ha as <-; injection Hb as <-.
    + eauto.
  - intros H. rewrite andb_true_iff, IH. split.
    + exact (H 0%nat x y eq_refl eq_refl).
    + intros n a b Ha Hb. exact (H (S n) a b Ha Hb).
Qed.

(** Combining [b] into [a] fails exactly when combining [a] into [b]
    fails (with an error or a panic). *)
Theorem combine_fails_symmetric (a b : Psbt) :
  is_ok (combine a b) = is_ok (combine b a).
Proof.
  unfold combine. apply Bool.eq_iff_eq_true.
  rewrite !combine_with_is_ok, !Psbt_combine_is_ok.
  split; intros ((Hv & Hi & Ho & Hx) & Hpi & Hpo); (split; [|split]);
    try (apply pairs_ok_sym; [first [apply Input_combine_is_ok_sym
                                     | apply Output_combine_is_ok_sym]|assumption]);
    (split; [congruence|]); (split; [lia|]); (split; [lia|]);
    by apply xpubs_compatible_sym.
Qed.

(** C2: [combine] is not commutative, although [combine],
    [combine_with] and [Global::combine] are documented as commutative.
    Whenever the two documents have input sequences of different lengths
    and [combine a b] succeeds, [combine b a] gives a different result:
    each order keeps the length of its first operand's inputs. *)
Theorem combine_not_commutative (a b r : Psbt) (H : combine a b = Ok r)
    (Hlen : length (inputs a) <> length (inputs b)) :
  combine b a <> Ok r.
Proof.
  intros H'.
  destruct (combine_with_ok a b r H) as (g & _ & Hi & _).
  destruct (combine_with_ok b a r H') as (g' & _ & Hi' & _).
  apply zip_combine_length in Hi, Hi'. congruence.
Qed.

Lemma combine_not_commutative_witness :
  let i := example_input None None (Some example_txout) ∅ None in
  let a := example_doc [i] [] ∅ in
  let b := example_doc [i; i] [] ∅ in
  exists r, combine a b = Ok r /\ length (inputs a) <> length (inputs b) /\
    combine b a <> Ok r.
Proof.
  intros i a b. eexists. split; [vm_compute; reflexivity|].
  assert (length (inputs a) <> length (inputs b)) as Hlen by (vm_compute; lia).
  split; [exact Hlen|].
  apply combine_not_commutative; [vm_compute; reflexivity|exact Hlen].
Defined.

(** ** Combining a document with itself *)

Lemma Input_combine_self (i : Input) : Input_combine i i = Ok i.
Proof.
  unfold Input_combine.
  rewrite decide_False by tauto. rewrite decide_False by tauto.
  destruct i; simpl. rewrite !combine_option_self, !combine_map_self.
  destruct witness_utxo0; reflexivity.
Qed.

Lemma Output_combine_self (o : Output) : Output_combine o o = Ok o.
Proof.
  unfold Output_combine.
  rewrite decide_False by tauto. rewrite decide_False by tauto.
  destruct o; simpl. by rewrite !combine_option_self, !combine_map_self.
Qed.

Lemma zip_combine_self {A} (f : A -> A -> outcome A CombineError) (xs : list A) :
  (forall x, f x x = Ok x) -> zip_combine f xs xs = Ok xs.
Proof.
  intros Hf. induction xs as [|x xs IH]; [reflexivity|].
  simpl. rewrite Hf. simpl. rewrite IH. reflexivity.
Qed.

Lemma merge_xpubs_self (m : gmap N KeySource) (l : list (N * KeySource)) :
  (forall x ks, In (x, ks) l -> m !! x = Some ks) -> merge_xpubs m l = Ok m.
Proof.
  induction l as [|[x [f d]] l IH]; intros Hl; [reflexivity|].
  cbn [merge_xpubs]. unfold merge_xpub.
  rewrite (Hl x (f, d) (or_introl eq_refl)).
  rewrite bool_decide_true by tauto. cbn [orb bind].
  apply IH. intros y ks Hin. apply Hl. by right.
Qed.

(** C3: [combine(a, a)] succeeds but is not [a]: it is [a] with its input
    and output counts doubled (for counts that do not overflow [usize]). *)
Theorem combine_self_doubles_counts (a : Psbt)
    (Hi : 2 * input_count a < usize_modulus) (Ho : 2 * output_count a < usize_modulus) :
  combine a a =
    Ok {| tx_version := tx_version a;
          fallback_lock_time := fallback_lock_time a;
          input_count := 2 * input_count a;
          output_count := 2 * output_count a;
          tx_modifiable_flags := tx_modifiable_flags a;
          xpub := xpub a;
          inputs := inputs a;
          outputs := outputs a |}.
Proof.
  unfold combine, combine_with, Psbt_combine, usize_add.
  rewrite decide_False by tauto.
  replace (input_count a + input_count a) with (2 * input_count a) by lia.
  replace (output_count a + output_count a) with (2 * output_count a) by lia.
  apply N.ltb_lt in Hi, Ho. rewrite Hi, Ho. simpl.
  rewrite merge_xpubs_self.
  2: { intros x ks Hin. by apply list_elem_of_In, elem_of_map_to_list in Hin. }
  simpl. rewrite zip_combine_self by apply Input_combine_self. simpl.
  rewrite zip_combine_self by apply Output_combine_self. reflexivity.
Qed.

Lemma combine_self_doubles_counts_witness :
  let a := example_doc [Input_new 1 0] [] ∅ in
  2 * input_count a < usize_modulus /\ 2 * output_count a < usize_modulus /\
  combine a a =
    Ok {| tx_version := tx_version a;
          fallback_lock_time := fallback_lock_time a;
          input_count := 2 * input_count a;
          output_count := 2 * output_count a;
          tx_modifiable_flags := tx_modifiable_flags a;
          xpub := xpub a;
          inputs := inputs a;
          outputs := outputs a |}.
Proof.
  intros a. assert (Hi : 2 * input_count a < usize_modulus) by (vm_compute; reflexivity).
  assert (Ho : 2 * output_count a < usize_modulus) by (vm_compute; reflexivity).
  split; [exact Hi|]. split; [exact Ho|].
  exact (combine_self_doubles_counts a Hi Ho).
Defined.

(** C4: the counts of the merged document are the sums of the two
    pre-merge counts, not the lengths of the merged sequences: combining a
    one-input document with itself gives [input_count = 2] over one input. *)
Theorem combine_counts_summed :
  let a := example_doc [Input_new 1 0] [] ∅ in
  exists r, combine a a = Ok r /\ input_count r = 2 /\ length (inputs r) = 1%nat.
Proof. simpl. eexists. split; [reflexivity|]. split; reflexivity. Qed.

(** ** The extended public key map *)

(** C5 (code defect): two documents holding the same extended key [7] at
    the same path [[0]] under different fingerprints combine without error,
    the second operand's fingerprint replacing the first's; and when the
    second operand's path is the shorter one and not a suffix of the first's,
    the slice [derivation1[derivation1.len() - derivation2.len()..]] panics
    instead of returning [InconsistentKeySourcesError]. *)
Theorem combine_xpub_conflicts :
  let a := example_doc [] [] {[7 := (1, [0])]} in
  let b := example_doc [] [] {[7 := (2, [0])]} in
  let c := example_doc [] [] {[7 := (1, [0; 1])]} in
  let d := example_doc [] [] {[7 := (1, [5])]} in
  (exists r, combine a b = Ok r /\ xpub r = {[7 := (2, [0])]}) /\
  combine c d = Panic.
Proof. simpl. split; [eexists; split; reflexivity|reflexivity]. Qed.

(** ** Map-valued fields *)

Lemma Input_combine_maps (ia ib ir : Input) :
  Input_combine ia ib = Ok ir -> input_maps_union ia ib ir.
Proof.
  unfold Input_combine.
  destruct (decide _); [discriminate|]. destruct (decide _); [discriminate|].
  destruct (witness_utxo ia), (witness_utxo ib); intros [= <-];
    unfold input_maps_union; simpl; rewrite !combine_map_union; repeat split.
Qed.

Lemma Output_combine_maps (oa ob or : Output) :
  Output_combine oa ob = Ok or -> output_maps_union oa ob or.
Proof.
  unfold Output_combine.
  destruct (decide _); [discriminate|]. destruct (decide _); [discriminate|].
  intros [= <-]. unfold output_maps_union; simpl. rewrite !combine_map_union. done.
Qed.

(** C6 (amended): every map-valued field of a merged input or output is the
    union of the two operands' maps, and on a key present in both the
    entry of the second operand [b] is kept ([BTreeMap::extend]). *)
Theorem combine_maps_second_wins (a b r : Psbt) (H : combine a b = Ok r) :
  (forall n ia ib, inputs a !! n = Some ia -> inputs b !! n = Some ib ->
     exists ir, inputs r !! n = Some ir /\ input_maps_union ia ib ir) /\
  (forall n oa ob, outputs a !! n = Some oa -> outputs b !! n = Some ob ->
     exists or, outputs r !! n = Some or /\ output_maps_union oa ob or).
Proof.
  destruct (combine_with_ok a b r H) as (g & _ & Hi & Ho & _). split.
  - intros n ia ib Ha Hb.
    destruct (zip_combine_pair _ _ _ _ n ia ib Hi Ha Hb) as (ir & Hr & Hc).
    exists ir. split; [done|]. by apply Input_combine_maps.
  - intros n oa ob Ha Hb.
    destruct (zip_combine_pair _ _ _ _ n oa ob Ho Ha Hb) as (or & Hr & Hc).
    exists or. split; [done|]. by apply Output_combine_maps.
Qed.

Lemma combine_maps_second_wins_witness :
  let ia := example_input None None None {[3 := example_sig]} None in
  let ib := example_input None None None {[3 := example_sig']} None in
  let a := example_doc [ia] [] ∅ in
  let b := example_doc [ib] [] ∅ in
  let r := mkPsbt 2 LockTime_ZERO 2 0 0 ∅
              [example_input None None None {[3 := example_sig']} None] [] in
  combine a b = Ok r /\
  exists ir, inputs r !! 0%nat = Some ir /\ input_maps_union ia ib ir.
Proof.
  intros ia ib a b r.
  assert (H : combine a b = Ok r) by (vm_compute; reflexivity).
  split; [exact H|].
  exact (proj1 (combine_maps_second_wins a b r H) 0%nat ia ib eq_refl eq_refl).
Defined.

(** C6 counterexample: on the key [3] present in both partial signature
    maps, the merged input holds [b]'s signature, not [a]'s. *)
Lemma combine_map_keeps_first_fails :
  let a := example_doc [example_input None None None {[3 := example_sig]} None] [] ∅ in
  let b := example_doc [example_input None None None {[3 := example_sig']} None] [] ∅ in
  exists r ir, combine a b = Ok r /\ inputs r = [ir] /\
    partial_sigs ir !! 3 = Some example_sig' /\ example_sig' <> example_sig.
Proof.
  simpl. do 2 eexists. split; [vm_compute; reflexivity|].
  split; [reflexivity|]. split; [reflexivity|]. discriminate.
Qed.

(** ** Optional scalar fields of an input *)

Lemma Input_combine_scalars (ia ib ir : Input) :
  Input_combine ia ib = Ok ir -> input_scalars_merged ia ib ir.
Proof.
  unfold Input_combine.
  destruct (decide _); [discriminate|]. destruct (decide _); [discriminate|].
  destruct (witness_utxo ia) eqn:Ea, (witness_utxo ib) eqn:Eb; intros [= <-];
    unfold input_scalars_merged, option_or; simpl; rewrite ?combine_option_or, ?Ea, ?Eb;
    repeat split.
Qed.

(** C7 (amended): in every merged input, each optional scalar field other
    than [sighash_type] and [non_witness_utxo] is [a]'s value if present,
    else [b]'s; [sighash_type] is always [a]'s; [non_witness_utxo] follows
    the same rule except that it is cleared when [a] has no witness UTXO and
    [b] has one (which is then taken). *)
Theorem combine_input_scalars (a b r : Psbt) (H : combine a b = Ok r) :
  forall n ia ib, inputs a !! n = Some ia -> inputs b !! n = Some ib ->
    exists ir, inputs r !! n = Some ir /\ input_scalars_merged ia ib ir.
Proof.
  destruct (combine_with_ok a b r H) as (g & _ & Hi & _).
  intros n ia ib Ha Hb.
  destruct (zip_combine_pair _ _ _ _ n ia ib Hi Ha Hb) as (ir & Hr & Hc).
  exists ir. split; [done|]. by apply Input_combine_scalars.
Qed.

Lemma combine_input_scalars_witness :
  let ia := example_input (Some 1) (Some example_tx) None ∅ None in
  let ib := example_input None None (Some example_txout) ∅ (Some 0x01) in
  let a := example_doc [ia] [] ∅ in
  let b := example_doc [ib] [] ∅ in
  let r := mkPsbt 2 LockTime_ZERO 2 0 0 ∅
              [example_input (Some 1) None (Some example_txout) ∅ None] [] in
  combine a b = Ok r /\
  exists ir, inputs r !! 0%nat = Some ir /\ input_scalars_merged ia ib ir.
Proof.
  intros ia ib a b r.
  assert (H : combine a b = Ok r) by (vm_compute; reflexivity).
  split; [exact H|].
  exact (combine_input_scalars a b r H 0%nat ia ib eq_refl eq_refl).
Defined.

(** C7 counterexample: [a]'s input has a non-witness UTXO and no sighash
    type, [b]'s has a witness UTXO and sighash type [0x01]; the merged input
    has lost [a]'s non-witness UTXO and did not take [b]'s sighash type. *)
Lemma combine_input_scalar_overwritten :
  let a := example_doc [example_input None (Some example_tx) None ∅ None] [] ∅ in
  let b := example_doc [example_input None None (Some example_txout) ∅ (Some 0x01)] [] ∅ in
  exists r ir, combine a b = Ok r /\ inputs r = [ir] /\
    non_witness_utxo ir = None /\ sighash_type ir = None.
Proof.
  simpl. do 2 eexists. split; [vm_compute; reflexivity|].
  split; [reflexivity|]. split; reflexivity.
Qed.

(** ** [Finalizer::new] *)

Lemma all_funding_utxos_is_ok (l : list Input) :
  is_ok (all_funding_utxos l) = forallb (fun i => is_ok (funding_utxo i)) l.
Proof.
  induction l as [|i l IH]; [reflexivity|]. simpl.
  destruct (funding_utxo i); simpl; auto.
Qed.

Lemma from_standard_to_u32 (t : EcdsaSighashType) :
  EcdsaSighashType_from_standard (EcdsaSighashType_to_u32 t) = Some t.
Proof. by destruct t. Qed.

Lemma check_sigs_ok (idx : nat) (target : EcdsaSighashType) sigs :
  check_sigs idx target sigs = Ok tt ->
  forall k s, In (k, s) sigs -> ecdsa_sighash_type s = target.
Proof.
  induction sigs as [|[k s] sigs IH]; simpl; [done|].
  rewrite from_standard_to_u32. simpl.
  destruct (decide (target <> ecdsa_sighash_type s)) as [Hne|Heq]; [discriminate|].
  intros Hrest k' s' [[= <- <-]|Hin].
  - symmetry. by apply dec_stable.
  - by apply (IH Hrest k').
Qed.

Lemma check_inputs_sighash_ok (idx : nat) (l : list Input) :
  check_inputs_sighash idx l = Ok tt ->
  forall i k s, In i l -> partial_sigs i !! k = Some s ->
    match sighash_type i with
    | Some t => ecdsa_hash_ty t = Some (ecdsa_sighash_type s)
    | None => ecdsa_sighash_type s = All
    end.
Proof.
  revert idx. induction l as [|i l IH]; intros idx; simpl; [done|].
  destruct (sighash_type i) as [t|] eqn:Ht.
  - destruct (ecdsa_hash_ty t) as [target|] eqn:Et; simpl; [|discriminate].
    destruct (check_sigs idx target _) as [[]| |] eqn:Ec; simpl; try discriminate.
    intros Hrest j k s [<-|Hin] Hk.
    + rewrite Ht, Et. f_equal. symmetry.
      apply (check_sigs_ok idx target _ Ec k).
      apply list_elem_of_In. by apply elem_of_map_to_list.
    + exact (IH (S idx) Hrest j k s Hin Hk).
  - simpl. destruct (check_sigs idx All _) as [[]| |] eqn:Ec; simpl; try discriminate.
    intros Hrest j k s [<-|Hin] Hk.
    + rewrite Ht. apply (check_sigs_ok idx All _ Ec k).
      apply list_elem_of_In. by apply elem_of_map_to_list.
    + exact (IH (S idx) Hrest j k s Hin Hk).
Qed.

(** C8: [Finalizer::new] fails whenever some input has no funding UTXO
    (neither UTXO, or a spent output index out of bounds of the non-witness
    UTXO's outputs), whatever partial signatures it carries; and when it
    succeeds every input has a funding UTXO, the lock time is determined,
    and every partial signature's sighash type is the input's declared
    sighash type, or [All] when none is declared. *)
Theorem Finalizer_new_gating (p : Psbt) :
  ((exists i, In i (inputs p) /\ is_ok (funding_utxo i) = false) ->
     is_ok (Finalizer_new p) = false) /\
  (forall q, Finalizer_new p = Ok q ->
     q = p /\
     (forall i, In i (inputs p) -> is_ok (funding_utxo i) = true) /\
     is_ok (determine_lock_time p) = true /\
     (forall i k s, In i (inputs p) -> partial_sigs i !! k = Some s ->
        match sighash_type i with
        | Some t => ecdsa_hash_ty t = Some (ecdsa_sighash_type s)
        | None => ecdsa_sighash_type s = All
        end)).
Proof.
  unfold Finalizer_new. split.
  - intros (i & Hin & Hi).
    assert (is_ok (all_funding_utxos (inputs p)) = false) as Hf.
    { rewrite all_funding_utxos_is_ok. apply not_true_iff_false. intros Hall.
      rewrite forallb_forall in Hall. specialize (Hall i Hin). congruence. }
    destruct (all_funding_utxos (inputs p)); [discriminate|reflexivity|reflexivity].
  - intros q.
    destruct (all_funding_utxos (inputs p)) as [[]| |] eqn:Ef; simpl; try discriminate.
    destruct (determine_lock_time p) as [lt| |] eqn:El; simpl; try discriminate.
    destruct (check_partial_sigs_sighash_type p) as [[]| |] eqn:Es; simpl; try discriminate.
    intros [= <-]. split; [done|]. split; [|split].
    + intros i Hin. assert (Hall := all_funding_utxos_is_ok (inputs p)).
      rewrite Ef in Hall. symmetry in Hall. rewrite forallb_forall in Hall. auto.
    + reflexivity.
    + exact (check_inputs_sighash_ok 0 (inputs p) Es).
Qed.

Lemma Finalizer_new_gating_witness :
  let p := example_doc [example_input None None None {[3 := example_sig]} None] [] ∅ in
  is_ok (Finalizer_new p) = false.
Proof.
  intros p. apply (proj1 (Finalizer_new_gating p)).
  exists (example_input None None None {[3 := example_sig]} None).
  split; [left; reflexivity|reflexivity].
Defined.

(** ** Legacy (v0) validation of an output *)

(** C9 (code defect): the output's [assert_is_valid_v0] tests [sequence]
    where it means [amount], so on an output it never reports [HasAmount]:
    it fails with [HasScriptPubkey] iff the script pubkey is present, and an
    output with an amount and no script pubkey passes. *)
Theorem output_v0_amount_unchecked (amt : option N) (spk : option ScriptBuf) :
  output_assert_is_valid_v0 (wire_output amt spk) =
    if is_some spk then Err HasScriptPubkey else Ok tt.
Proof. reflexivity. Qed.

(** ** Sequences of different lengths *)

(** C10: when the globals and every positional pair merge, [combine]
    succeeds whatever the lengths: the result has [a]'s number of inputs and
    outputs, the records of [a] beyond [b]'s length are kept unmerged, each
    paired record is the merge of the pair, and [b]'s extra records are
    dropped. *)
Theorem combine_pairs_positionally (a b : Psbt)
    (Hg : is_ok (Psbt_combine a b) = true)
    (Hi : pairs_okb Input_combine (inputs a) (inputs b) = true)
    (Ho : pairs_okb Output_combine (outputs a) (outputs b) = true) :
  exists r, combine a b = Ok r /\
    length (inputs r) = length (inputs a) /\
    length (outputs r) = length (outputs a) /\
    drop (length (inputs b)) (inputs r) = drop (length (inputs b)) (inputs a) /\
    drop (length (outputs b)) (outputs r) = drop (length (outputs b)) (outputs a) /\
    (forall n ia ib, inputs a !! n = Some ia -> inputs b !! n = Some ib ->
       exists ir, inputs r !! n = Some ir /\ Input_combine ia ib = Ok ir) /\
    (forall n oa ob, outputs a !! n = Some oa -> outputs b !! n = Some ob ->
       exists or, outputs r !! n = Some or /\ Output_combine oa ob = Ok or).
Proof.
  apply pairs_okb_spec in Hi, Ho.
  assert (is_ok (combine a b) = true) as Hok.
  { unfold combine. apply combine_with_is_ok. auto. }
  destruct (combine a b) as [r| |] eqn:Er; try discriminate.
  destruct (combine_with_ok a b r Er) as (g & _ & Hzi & Hzo & _).
  exists r. split; [done|].
  repeat split.
  - exact (zip_combine_length _ _ _ _ Hzi).
  - exact (zip_combine_length _ _ _ _ Hzo).
  - exact (zip_combine_rest _ _ _ _ Hzi).
  - exact (zip_combine_rest _ _ _ _ Hzo).
  - intros n ia ib Ha Hb. exact (zip_combine_pair _ _ _ _ n ia ib Hzi Ha Hb).
  - intros n oa ob Ha Hb. exact (zip_combine_pair _ _ _ _ n oa ob Hzo Ha Hb).
Qed.

(** A one-input document combined with a two-input one: one input. *)
Lemma combine_pairs_positionally_witness :
  let a := example_doc [Input_new 1 0] [] ∅ in
  let b := example_doc [Input_new 1 0; Input_new 9 4] [] ∅ in
  exists r, combine a b = Ok r /\
    length (inputs r) = length (inputs a) /\
    length (outputs r) = length (outputs a) /\
    drop (length (inputs b)) (inputs r) = drop (length (inputs b)) (inputs a) /\
    drop (length (outputs b)) (outputs r) = drop (length (outputs b)) (outputs a) /\
    (forall n ia ib, inputs a !! n = Some ia -> inputs b !! n = Some ib ->
       exists ir, inputs r !! n = Some ir /\ Input_combine ia ib = Ok ir) /\
    (forall n oa ob, outputs a !! n = Some oa -> outputs b !! n = Some ob ->
       exists or, outputs r !! n = Some or /\ Output_combine oa ob = Ok or).
Proof.
  intros a b. apply combine_pairs_positionally; vm_compute; reflexivity.
Defined.

(** ** Concrete runs *)

(** The lock time test of the spec: heights 600000 and 650000 with a
    fallback of 500000 resolve to 650000. *)
Example determine_lock_time_heights :
  let i h := mkInput 1 0 None None (Some h) None None ∅ None None None ∅ None None
               ∅ ∅ ∅ ∅ None ∅ ∅ ∅ None None in
  determine_lock_time
    (mkPsbt 2 (Blocks 500000) 2 0 0 ∅ [i 600000; i 650000] []) = Ok (Blocks 650000).
Proof. reflexivity. Qed.

(** A time based and a height based requirement conflict. *)
Example determine_lock_time_conflict :
  let i t h := mkInput 1 0 None t h None None ∅ None None None ∅ None None
                 ∅ ∅ ∅ ∅ None ∅ ∅ ∅ None None in
  determine_lock_time
    (mkPsbt 2 LockTime_ZERO 2 0 0 ∅ [i (Some 500000001) None; i None (Some 100)] [])
  = Err DetermineLockTimeError_.
Proof. reflexivity. Qed.

(* ================================================================== *)
(** * Further properties of the crate *)

(** ** Flags *)

Lemma land_pow2_pos (f k : N) : (0 <? N.land f (2 ^ k)) = N.testbit f k.
Proof.
  destruct (N.testbit f k) eqn:Hb.
  - apply N.ltb_lt. apply N.neq_0_lt_0. intros H0.
    assert (N.testbit (N.land f (2 ^ k)) k = false) as Hf by (rewrite H0; apply N.bits_0).
    rewrite N.land_spec, N.pow2_bits_true, Hb in Hf. discriminate.
  - apply N.ltb_ge. apply N.le_0_r. apply N.bits_inj_0. intros j.
    rewrite N.land_spec, N.pow2_bits_eqb.
    destruct (N.eqb_spec k j) as [<-|]; [by rewrite Hb|apply andb_false_r].
Qed.

Lemma flags_view_bits (p : Psbt) :
  flags_view p = (N.testbit (tx_modifiable_flags p) 0, N.testbit (tx_modifiable_flags p) 1,
                  N.testbit (tx_modifiable_flags p) 2).
Proof.
  unfold flags_view, is_inputs_modifiable, is_outputs_modifiable, has_sighash_single.
  rewrite <- !land_pow2_pos. reflexivity.
Qed.

Ltac flag_bits :=
  rewrite flags_view_bits; cbn [tx_modifiable_flags with_tx_modifiable_flags];
  unfold u8_not, INPUTS_MODIFIABLE, OUTPUTS_MODIFIABLE, SIGHASH_SINGLE;
  rewrite ?N.lor_spec, ?N.land_spec, ?N.lxor_spec; cbn;
  rewrite ?orb_true_r, ?orb_false_r, ?andb_true_r, ?andb_false_r; reflexivity.

(** Each flag setter and clearer of [Psbt] sets or clears its own flag, as
    [is_inputs_modifiable], [is_outputs_modifiable] and
    [has_sighash_single] report it, and leaves the other two flags as they
    were. *)
Theorem flag_updates_independent (p : Psbt) :
  let '(i, o, s) := flags_view p in
  flags_view (set_inputs_modifiable_flag p) = (true, o, s) /\
  flags_view (clear_inputs_modifiable_flag p) = (false, o, s) /\
  flags_view (set_outputs_modifiable_flag p) = (i, true, s) /\
  flags_view (clear_outputs_modifiable_flag p) = (i, false, s) /\
  flags_view (set_sighash_single_flag p) = (i, o, true) /\
  flags_view (clear_sighash_single_flag p) = (i, o, false).
Proof.
  rewrite flags_view_bits.
  unfold set_inputs_modifiable_flag, clear_inputs_modifiable_flag,
    set_outputs_modifiable_flag, clear_outputs_modifiable_flag,
    set_sighash_single_flag, clear_sighash_single_flag.
  repeat split; flag_bits.
Qed.

Lemma flag_updates_view (p : Psbt) :
  flags_view (set_inputs_modifiable_flag p) =
    (true, is_outputs_modifiable p, has_sighash_single p) /\
  flags_view (clear_inputs_modifiable_flag p) =
    (false, is_outputs_modifiable p, has_sighash_single p) /\
  flags_view (set_outputs_modifiable_flag p) =
    (is_inputs_modifiable p, true, has_sighash_single p) /\
  flags_view (clear_outputs_modifiable_flag p) =
    (is_inputs_modifiable p, false, has_sighash_single p).
Proof.
  pose proof (flags_view_bits p) as Hv. unfold flags_view in Hv.
  injection Hv as -> -> ->.
  unfold set_inputs_modifiable_flag, clear_inputs_modifiable_flag,
    set_outputs_modifiable_flag, clear_outputs_modifiable_flag.
  repeat split; flag_bits.
Qed.

Lemma flags_view_components (p : Psbt) (i o s : bool) :
  flags_view p = (i, o, s) ->
  is_inputs_modifiable p = i /\ is_outputs_modifiable p = o /\ has_sighash_single p = s.
Proof. unfold flags_view. by intros [= -> -> ->]. Qed.

(** ** The Creator and the Constructor *)

(** A Constructor made by the Creator can be rebuilt from its document by
    the [from_psbt] of the same kind, and the kinds are told apart: the
    inputs-only document is refused by [Constructor<Modifiable>::from_psbt]
    for its outputs, the outputs-only one for its inputs. *)
Theorem creator_constructor_from_psbt (c : Creator) :
  Constructor_Modifiable_from_psbt (ctor_psbt (constructor_modifiable c)) =
    Ok (constructor_modifiable c) /\
  Constructor_InputsOnly_from_psbt (ctor_psbt (constructor_inputs_only_modifiable c)) =
    Ok (constructor_inputs_only_modifiable c) /\
  Constructor_OutputsOnly_from_psbt (ctor_psbt (constructor_outputs_only_modifiable c)) =
    Ok (constructor_outputs_only_modifiable c) /\
  Constructor_Modifiable_from_psbt (ctor_psbt (constructor_inputs_only_modifiable c)) =
    Err (Outputs OutputsNotModifiableError_) /\
  Constructor_Modifiable_from_psbt (ctor_psbt (constructor_outputs_only_modifiable c)) =
    Err (Inputs InputsNotModifiableError_).
Proof.
  set (p := creator_psbt c).
  pose proof (flag_updates_view p) as (H1 & H2 & _).
  pose proof (flag_updates_view (set_inputs_modifiable_flag p)) as (_ & _ & H3 & H4).
  pose proof (flag_updates_view (clear_inputs_modifiable_flag p)) as (_ & _ & H5 & _).
  apply flags_view_components in H1 as (F1 & F2 & _), H2 as (F3 & F4 & _).
  rewrite ?F1, ?F2 in H3. rewrite ?F1, ?F2 in H4. rewrite ?F3, ?F4 in H5.
  apply flags_view_components in H3 as (E1 & E2 & _), H4 as (E3 & E4 & _),
    H5 as (E5 & E6 & _).
  unfold Constructor_Modifiable_from_psbt, Constructor_InputsOnly_from_psbt,
    Constructor_OutputsOnly_from_psbt, constructor_modifiable,
    constructor_inputs_only_modifiable, constructor_outputs_only_modifiable; cbn [ctor_psbt].
  fold p. rewrite E1, E2, E3, E4, E5, E6. repeat split.
Qed.

(** Once [no_more_inputs] has run, the document is refused by the
    [from_psbt] of every Constructor kind that adds inputs; once
    [no_more_outputs] has run, by every kind that adds outputs (the
    modifiable kind reports the inputs flag first). *)
Theorem no_more_closes_constructor {T} (c : Constructor T) :
  Constructor_Modifiable_from_psbt (ctor_psbt (Constructor_no_more_inputs c)) =
    Err (Inputs InputsNotModifiableError_) /\
  Constructor_InputsOnly_from_psbt (ctor_psbt (Constructor_no_more_inputs c)) =
    Err InputsNotModifiableError_ /\
  Constructor_Modifiable_from_psbt (ctor_psbt (Constructor_no_more_outputs c)) =
    (if is_inputs_modifiable (ctor_psbt c) then Err (Outputs OutputsNotModifiableError_)
     else Err (Inputs InputsNotModifiableError_)) /\
  Constructor_OutputsOnly_from_psbt (ctor_psbt (Constructor_no_more_outputs c)) =
    Err OutputsNotModifiableError_.
Proof.
  pose proof (flag_updates_view (ctor_psbt c)) as (_ & H2 & _ & H4).
  apply flags_view_components in H2 as (E1 & _), H4 as (E3 & E4 & _).
  unfold Constructor_Modifiable_from_psbt, Constructor_InputsOnly_from_psbt,
    Constructor_OutputsOnly_from_psbt, Constructor_no_more_inputs,
    Constructor_no_more_outputs; cbn [ctor_psbt].
  rewrite E1, E3, E4. destruct (is_inputs_modifiable (ctor_psbt c)); repeat split.
Qed.

(** The counts a document keeps equal to its sequences. *)
Definition counts_match (p : Psbt) : Prop :=
  input_count p = N.of_nat (length (inputs p)) /\
  output_count p = N.of_nat (length (outputs p)).

(** Adding an input or an output through a Constructor appends it at the
    end, leaves the flags alone and keeps [input_count] and [output_count]
    equal to the numbers of inputs and outputs, as long as the count stays
    below the [usize] bound. *)
Theorem Constructor_add_keeps_counts {T} (c : Constructor T) (i : Input) (o : Output)
    (Hc : counts_match (ctor_psbt c))
    (Hi : input_count (ctor_psbt c) + 1 < usize_modulus)
    (Ho : output_count (ctor_psbt c) + 1 < usize_modulus) :
  (exists c', Constructor_input c i = Ok c' /\ counts_match (ctor_psbt c') /\
     inputs (ctor_psbt c') = inputs (ctor_psbt c) ++ [i] /\
     outputs (ctor_psbt c') = outputs (ctor_psbt c) /\
     tx_modifiable_flags (ctor_psbt c') = tx_modifiable_flags (ctor_psbt c)) /\
  (exists c', Constructor_output c o = Ok c' /\ counts_match (ctor_psbt c') /\
     outputs (ctor_psbt c') = outputs (ctor_psbt c) ++ [o] /\
     inputs (ctor_psbt c') = inputs (ctor_psbt c) /\
     tx_modifiable_flags (ctor_psbt c') = tx_modifiable_flags (ctor_psbt c)).
Proof.
  destruct Hc as [Hci Hco].
  unfold Constructor_input, Constructor_output, usize_add.
  apply N.ltb_lt in Hi, Ho. rewrite Hi, Ho. cbn [bind].
  split; eexists; (split; [reflexivity|]); cbn [ctor_psbt inputs outputs input_count
    output_count tx_modifiable_flags]; unfold counts_match; cbn;
    rewrite ?length_app; cbn [length]; repeat split; lia.
Qed.

Lemma Constructor_add_keeps_counts_witness :
  let c : Constructor Modifiable := MkConstructor (example_doc [Input_new 1 0] [] ∅) in
  counts_match (ctor_psbt c) /\
  (exists c', Constructor_input c (Input_new 2 1) = Ok c' /\ counts_match (ctor_psbt c') /\
     inputs (ctor_psbt c') = inputs (ctor_psbt c) ++ [Input_new 2 1] /\
     outputs (ctor_psbt c') = outputs (ctor_psbt c) /\
     tx_modifiable_flags (ctor_psbt c') = tx_modifiable_flags (ctor_psbt c)) /\
  (exists c', Constructor_output c (Output_new 1000 [0x51]) = Ok c' /\ counts_match (ctor_psbt c') /\
     outputs (ctor_psbt c') = outputs (ctor_psbt c) ++ [Output_new 1000 [0x51]] /\
     inputs (ctor_psbt c') = inputs (ctor_psbt c) /\
     tx_modifiable_flags (ctor_psbt c') = tx_modifiable_flags (ctor_psbt c)).
Proof.
  intros c.
  assert (counts_match (ctor_psbt c)) as Hc by (split; reflexivity).
  split; [exact Hc|].
  apply (Constructor_add_keeps_counts c); [exact Hc|vm_compute; reflexivity|vm_compute; reflexivity].
Defined.

(** [Constructor::updater] succeeds exactly when the lock time of the
    document can be determined; the Updater then holds the same document
    with the inputs and outputs modifiable flags cleared and the rest, the
    sighash single flag included, unchanged. *)
Theorem Constructor_updater_closes {T} (c : Constructor T) :
  is_ok (Constructor_updater c) = is_ok (determine_lock_time (ctor_psbt c)) /\
  forall u, Constructor_updater c = Ok u ->
    is_inputs_modifiable (updater_psbt u) = false /\
    is_outputs_modifiable (updater_psbt u) = false /\
    has_sighash_single (updater_psbt u) = has_sighash_single (ctor_psbt c) /\
    inputs (updater_psbt u) = inputs (ctor_psbt c) /\
    outputs (updater_psbt u) = outputs (ctor_psbt c) /\
    xpub (updater_psbt u) = xpub (ctor_psbt c) /\
    fallback_lock_time (updater_psbt u) = fallback_lock_time (ctor_psbt c).
Proof.
  set (p := ctor_psbt c).
  set (q := clear_outputs_modifiable_flag (clear_inputs_modifiable_flag p)).
  assert (determine_lock_time q = determine_lock_time p) as Hd by reflexivity.
  assert (Constructor_updater c = let! _ := determine_lock_time p in Ok (MkUpdater q)) as Hu.
  { unfold Constructor_updater, Constructor_into_inner, Updater_from_psbt,
      Constructor_no_more_inputs, Constructor_no_more_outputs; cbn [ctor_psbt].
    change (clear_outputs_modifiable_flag (clear_inputs_modifiable_flag (ctor_psbt c)))
      with q.
    rewrite Hd. destruct (determine_lock_time p) eqn:E; cbn [bind]; rewrite ?Hd, ?E;
      reflexivity. }
  pose proof (flag_updates_view p) as (_ & H2 & _).
  pose proof (flag_updates_view (clear_inputs_modifiable_flag p)) as (_ & _ & _ & H4).
  pose proof H2 as H2'. apply flags_view_components in H2' as (F1 & F2 & F3).
  rewrite ?F1, ?F2, ?F3 in H4. apply flags_view_components in H4 as (E1 & E2 & E3).
  rewrite Hu. split; [by destruct (determine_lock_time p)|].
  intros u Hok. destruct (determine_lock_time p); cbn in Hok; try discriminate.
  injection Hok as <-. cbn [updater_psbt]. fold q in E1, E2, E3.
  rewrite E1, E2, E3. repeat split.
Qed.

(** ** Lock time *)

Lemma determine_lock_time_as_maxima (p : Psbt) :
  determine_lock_time p = lock_time_spec p.
Proof.
  unfold determine_lock_time, lock_time_spec.
  destruct (existsb requires_time_based_lock_time (inputs p)
            && existsb requires_height_based_lock_time (inputs p)) eqn:Hc;
    [reflexivity|].
  destruct (existsb has_lock_time (inputs p)) eqn:Hl; [|reflexivity].
  simpl. apply existsb_exists in Hl as (i & Hin & Hi).
  destruct (forallb is_satisfied_with_height_based_lock_time (inputs p)) eqn:Hs.
  - rewrite forallb_forall in Hs. specialize (Hs i Hin).
    unfold has_lock_time, is_satisfied_with_height_based_lock_time,
      requires_height_based_lock_time, is_none in *.
    destruct (min_height i) as [h|] eqn:Hh;
      [|destruct (min_time i); simpl in *; discriminate].
    by rewrite (iter_max_map min_height (inputs p) (omap_nonempty _ _ i h Hin Hh)).
  - apply forallb_false_exists in Hs as (j & Hjn & Hj).
    unfold is_satisfied_with_height_based_lock_time,
      requires_height_based_lock_time, is_none in Hj.
    destruct (min_time j) as [t|] eqn:Ht;
      [|destruct (min_height j); simpl in Hj; discriminate].
    by rewrite (iter_max_map min_time (inputs p) (omap_nonempty _ _ j t Hjn Ht)).
Qed.

Lemma fold_max_ge {A} (f : A -> option N) (l : list A) (i : A) (x : N) :
  In i l -> f i = Some x -> x <= fold_right N.max 0 (omap f l).
Proof.
  induction l as [|j l IH]; [done|]. rewrite omap_cons. intros [<-|Hin] Hf.
  - rewrite Hf. cbn [fold_right]. lia.
  - destruct (f j); cbn [fold_right]; [|by apply IH].
    specialize (IH Hin Hf). lia.
Qed.

Lemma fold_max_attained {A} (f : A -> option N) (l : list A) :
  omap f l <> [] -> exists i, In i l /\ f i = Some (fold_right N.max 0 (omap f l)).
Proof.
  induction l as [|j l IH]; [done|]. rewrite omap_cons. intros Hne.
  destruct (f j) as [y|] eqn:Hj.
  - cbn [fold_right]. destruct (omap f l) as [|z zs] eqn:Ho.
    + exists j. split; [by left|]. rewrite Hj. cbn. f_equal. lia.
    + destruct (IH ltac:(done)) as (i & Hin & Hi).
      destruct (N.max_spec y (fold_right N.max 0 (z :: zs))) as [[_ ->]|[_ ->]].
      * exists i. split; [by right|done].
      * exists j. split; [by left|done].
  - destruct (IH Hne) as (i & Hin & Hi). exists i. split; [by right|done].
Qed.

(** An input is satisfied by a height based lock time exactly when it does
    not require a time based one, and no input requires both kinds. *)
Theorem lock_time_requirements_exclusive (i : Input) :
  is_satisfied_with_height_based_lock_time i = negb (requires_time_based_lock_time i) /\
  requires_time_based_lock_time i && requires_height_based_lock_time i = false /\
  (requires_time_based_lock_time i || requires_height_based_lock_time i)
    && negb (has_lock_time i) = false.
Proof.
  unfold is_satisfied_with_height_based_lock_time, requires_time_based_lock_time,
    requires_height_based_lock_time, has_lock_time, is_none.
  destruct (min_time i), (min_height i); repeat split.
Qed.

(** [determine_lock_time] never reaches its two [expect]s: it never panics,
    and it fails exactly when one input requires a time based lock time and
    another (or the same) a height based one. *)
Theorem determine_lock_time_no_panic (p : Psbt) :
  determine_lock_time p <> Panic /\
  (is_ok (determine_lock_time p) = false <->
   exists i j, In i (inputs p) /\ In j (inputs p) /\
     requires_time_based_lock_time i = true /\ requires_height_based_lock_time j = true).
Proof.
  rewrite determine_lock_time_as_maxima. unfold lock_time_spec.
  destruct (existsb requires_time_based_lock_time (inputs p)) eqn:Ht,
    (existsb requires_height_based_lock_time (inputs p)) eqn:Hh; cbn [andb].
  1: { split; [done|]. split; [intros _|done].
       apply existsb_exists in Ht as (i & ? & ?), Hh as (j & ? & ?). eauto 10. }
  all: split; [by repeat case_match|].
  all: split; [by repeat case_match|].
  all: intros (i & j & Hi & Hj & Hti & Hhj).
  all: assert (existsb requires_time_based_lock_time (inputs p) = true)
         by (apply existsb_exists; eauto).
  all: assert (existsb requires_height_based_lock_time (inputs p) = true)
         by (apply existsb_exists; eauto).
  all: congruence.
Qed.

(** The lock time [determine_lock_time] chooses satisfies every input:
    a height is at least every input's [min_height], a time at least every
    input's [min_time]; it is one of those values, or the fallback when no
    input sets a lock time. *)
Theorem determine_lock_time_covers_inputs (p : Psbt) :
  match determine_lock_time p with
  | Ok (Blocks h) =>
      (forall i x, In i (inputs p) -> min_height i = Some x -> x <= h) /\
      ((existsb has_lock_time (inputs p) = false /\ fallback_lock_time p = Blocks h) \/
       exists i, In i (inputs p) /\ min_height i = Some h)
  | Ok (Seconds t) =>
      (forall i x, In i (inputs p) -> min_time i = Some x -> x <= t) /\
      ((existsb has_lock_time (inputs p) = false /\ fallback_lock_time p = Seconds t) \/
       exists i, In i (inputs p) /\ min_time i = Some t)
  | Err _ => True
  | Panic => False
  end.
Proof.
  assert (forall (f : Input -> option N) i x,
            existsb has_lock_time (inputs p) = false ->
            (forall j, min_time j = None -> min_height j = None -> f j = None) ->
            In i (inputs p) -> f i = Some x -> False) as Hnone.
  { intros f i x Hl Hf Hin Hi.
    assert (has_lock_time i = false) as Hn.
    { destruct (has_lock_time i) eqn:E; [|done].
      assert (existsb has_lock_time (inputs p) = true) by (apply existsb_exists; eauto).
      congruence. }
    unfold has_lock_time in Hn.
    destruct (min_time i) eqn:E1, (min_height i) eqn:E2; try discriminate.
    rewrite (Hf i E1 E2) in Hi. discriminate. }
  rewrite determine_lock_time_as_maxima. unfold lock_time_spec.
  destruct (_ && _); [done|].
  destruct (existsb has_lock_time (inputs p)) eqn:Hl; cbn [negb].
  - apply existsb_exists in Hl as (k & Hk & Hkl).
    destruct (forallb is_satisfied_with_height_based_lock_time (inputs p)) eqn:Hs.
    + split; [intros; by eapply fold_max_ge|right].
      apply fold_max_attained.
      rewrite forallb_forall in Hs. specialize (Hs k Hk).
      unfold has_lock_time, is_satisfied_with_height_based_lock_time,
        requires_height_based_lock_time, is_none in *.
      destruct (min_height k) as [h|] eqn:Hh;
        [by eapply omap_nonempty|destruct (min_time k); simpl in *; discriminate].
    + split; [intros; by eapply fold_max_ge|right].
      apply fold_max_attained.
      apply forallb_false_exists in Hs as (j & Hjn & Hj).
      unfold is_satisfied_with_height_based_lock_time,
        requires_height_based_lock_time, is_none in Hj.
      destruct (min_time j) as [t|] eqn:Ht;
        [by eapply omap_nonempty|destruct (min_height j); simpl in Hj; discriminate].
  - destruct (fallback_lock_time p) eqn:Hf.
    + split; [|by left]. intros i x Hin Hi. exfalso.
      by apply (Hnone min_height i x eq_refl (fun j _ H => H)).
    + split; [|by left]. intros i x Hin Hi. exfalso.
      by apply (Hnone min_time i x eq_refl (fun j H _ => H)).
Qed.

(** For a document with a single input that sets a lock time,
    [determine_lock_time] agrees with that input's [Input::lock_time]
    (height first when both are set); without one it is the fallback. *)
Theorem Input_lock_time_single (p : Psbt) (i : Input) (H : inputs p = [i]) :
  determine_lock_time p =
    if has_lock_time i then Ok (Input_lock_time i) else Ok (fallback_lock_time p).
Proof.
  unfold determine_lock_time, Input_lock_time, has_lock_time,
    is_satisfied_with_height_based_lock_time, requires_time_based_lock_time,
    requires_height_based_lock_time, is_none.
  rewrite H. cbn [existsb forallb map iter_max fold_left].
  destruct (min_time i), (min_height i); reflexivity.
Qed.

Lemma Input_lock_time_single_witness :
  let i := mkInput 1 0 None (Some 500000001) (Some 700000) None None ∅ None None None ∅
             None None ∅ ∅ ∅ ∅ None ∅ ∅ ∅ None None in
  let p := example_doc [i] [] ∅ in
  inputs p = [i] /\
  determine_lock_time p = if has_lock_time i then Ok (Input_lock_time i)
                          else Ok (fallback_lock_time p).
Proof.
  intros i p. split; [reflexivity|]. apply (Input_lock_time_single p i). reflexivity.
Defined.

(** ** Finalizing and extracting *)



(** An input finalized without a witness UTXO is not [is_finalized], so
    [Extractor::new] refuses every document that contains it. *)
Theorem finalized_legacy_input_not_extractable (p : Psbt) (i r : Input)
    (fss : ScriptBuf) (fsw : Witness)
    (Hw : witness_utxo i = None) (Hr : Input_finalize i fss fsw = Ok r)
    (Hin : In r (inputs p)) :
  is_finalized r = false /\ Extractor_new p = Err PsbtNotFinalized.
Proof.
  unfold Input_finalize in Hr. rewrite Hw in Hr. cbn [is_some] in Hr.
  injection Hr as <-.
  split; [reflexivity|].
  unfold Extractor_new.
  replace (existsb _ (inputs p)) with true; [reflexivity|].
  symmetry. apply existsb_exists. eexists; split; [exact Hin|reflexivity].
Qed.

Lemma finalized_legacy_input_not_extractable_witness :
  let i := example_input None (Some example_tx) None {[5 := example_sig]} None in
  let r := mkInput 1 0 None None None (Some example_tx) None ∅ None None None ∅
             (Some [0x47]) None ∅ ∅ ∅ ∅ None ∅ ∅ ∅ None None in
  let p := example_doc [r] [] ∅ in
  witness_utxo i = None /\ Input_finalize i [0x47] [] = Ok r /\ In r (inputs p) /\
  is_finalized r = false /\ Extractor_new p = Err PsbtNotFinalized.
Proof.
  intros i r p.
  assert (witness_utxo i = None) as Hw by reflexivity.
  assert (Input_finalize i [0x47] [] = Ok r) as Hr by reflexivity.
  assert (In r (inputs p)) as Hin by (left; reflexivity).
  split; [exact Hw|]. split; [exact Hr|]. split; [exact Hin|].
  exact (finalized_legacy_input_not_extractable p i r [0x47] [] Hw Hr Hin).
Defined.

(** ** Combining, continued *)

Lemma zip_combine_lookup {A} (f : A -> A -> outcome A CombineError) xs ys zs n x :
  zip_combine f xs ys = Ok zs -> xs !! n = Some x ->
  exists z, zs !! n = Some z /\
    ((ys !! n = None /\ z = x) \/ exists y, ys !! n = Some y /\ f x y = Ok z).
Proof.
  revert ys zs n. induction xs as [|x' xs IH]; intros [|y' ys] zs n; simpl.
  - intros _ Hx. destruct n; discriminate.
  - intros _ Hx. destruct n; discriminate.
  - intros [= <-] Hx. exists x. split; [done|]. left. by destruct n.
  - destruct (f x' y') as [z'| |] eqn:Ef; simpl; try discriminate.
    destruct (zip_combine f xs ys) eqn:E; simpl; try discriminate.
    intros [= <-]. destruct n as [|n]; simpl.
    + intros [= <-]. exists z'. split; [done|]. right. eauto.
    + intros Hx. by apply (IH ys).
Qed.

Lemma zip_combine_lookup_inv {A} (f : A -> A -> outcome A CombineError) xs ys zs n z :
  zip_combine f xs ys = Ok zs -> zs !! n = Some z ->
  exists x, xs !! n = Some x /\
    ((ys !! n = None /\ z = x) \/ exists y, ys !! n = Some y /\ f x y = Ok z).
Proof.
  intros Hz Hn.
  assert (is_Some (xs !! n)) as [x Hx].
  { apply lookup_lt_is_Some. rewrite <-(zip_combine_length _ _ _ _ Hz).
    apply lookup_lt_is_Some. eauto. }
  destruct (zip_combine_lookup f xs ys zs n x Hz Hx) as (z' & Hz' & Hc).
  rewrite Hn in Hz'. injection Hz' as <-. eauto.
Qed.

Lemma Input_combine_ids (ia ib ir : Input) :
  Input_combine ia ib = Ok ir ->
  previous_txid ir = previous_txid ia /\ spent_output_index ir = spent_output_index ia.
Proof.
  unfold Input_combine.
  destruct (decide _); [discriminate|]. destruct (decide _); [discriminate|].
  destruct (witness_utxo ia), (witness_utxo ib); intros [= <-]; done.
Qed.

Lemma Input_combine_funding (ia ib ir : Input) :
  Input_combine ia ib = Ok ir -> is_ok (funding_utxo ia) = true ->
  is_ok (funding_utxo ir) = true.
Proof.
  intros Hc. pose proof (Input_combine_scalars _ _ _ Hc) as Hs.
  destruct (Input_combine_ids _ _ _ Hc) as [_ Hidx].
  unfold input_scalars_merged, option_or in Hs.
  destruct Hs as (_ & _ & _ & _ & _ & _ & _ & _ & _ & _ & Hw & Hn & _).
  unfold funding_utxo. rewrite Hw, Hn, Hidx.
  destruct (witness_utxo ia), (witness_utxo ib); try done.
  destruct (non_witness_utxo ia); done.
Qed.

(** Combining never takes a funding UTXO away: when every input of [a] has
    one, every input of [combine a b] has one, so the funding check of
    [Finalizer::new] still passes (the UTXO itself may change, to a witness
    UTXO taken from [b]). *)
Theorem combine_keeps_funding (a b r : Psbt) (H : combine a b = Ok r)
    (Ha : is_ok (all_funding_utxos (inputs a)) = true) :
  is_ok (all_funding_utxos (inputs r)) = true.
Proof.
  destruct (combine_with_ok a b r H) as (g & _ & Hi & _).
  rewrite all_funding_utxos_is_ok in Ha |- *.
  apply forallb_forall. intros ir Hin.
  apply list_elem_of_In, list_elem_of_lookup in Hin as [n Hn].
  destruct (zip_combine_lookup_inv _ _ _ _ n ir Hi Hn) as (ia & Hia & Hc).
  assert (is_ok (funding_utxo ia) = true) as Hfa.
  { rewrite forallb_forall in Ha. apply Ha, list_elem_of_In, list_elem_of_lookup. eauto. }
  destruct Hc as [[_ ->]|(ib & _ & Hc)]; [done|].
  by apply (Input_combine_funding ia ib ir).
Qed.

Lemma combine_keeps_funding_witness :
  let a := example_doc [example_input None (Some example_tx) None ∅ None] [] ∅ in
  let b := example_doc [example_input None None (Some example_txout) ∅ None] [] ∅ in
  let r := mkPsbt 2 LockTime_ZERO 2 0 0 ∅
              [example_input None None (Some example_txout) ∅ None] [] in
  combine a b = Ok r /\ is_ok (all_funding_utxos (inputs a)) = true /\
  is_ok (all_funding_utxos (inputs r)) = true.
Proof.
  intros a b r.
  assert (combine a b = Ok r) as H by (vm_compute; reflexivity).
  assert (is_ok (all_funding_utxos (inputs a)) = true) as Ha by reflexivity.
  split; [exact H|]. split; [exact Ha|].
  exact (combine_keeps_funding a b r H Ha).
Defined.

(** Combining never undoes a finalization: an input of [combine a b] is
    finalized when the input of [a] at its position is, or when the input
    of [b] there is. *)
Theorem combine_keeps_finalized (a b r : Psbt) (H : combine a b = Ok r) :
  forall n ir, inputs r !! n = Some ir ->
    (forall ia, inputs a !! n = Some ia -> is_finalized ia = true -> is_finalized ir = true) /\
    (forall ib, inputs b !! n = Some ib -> is_finalized ib = true -> is_finalized ir = true).
Proof.
  destruct (combine_with_ok a b r H) as (g & _ & Hi & _).
  intros n ir Hn.
  destruct (zip_combine_lookup_inv _ _ _ _ n ir Hi Hn) as (ia & Hia & Hc).
  destruct Hc as [[Hb ->]|(ib & Hib & Hc)].
  - split; [intros ia' Ha'; rewrite Hia in Ha'; by injection Ha' as <-|].
    intros ib Hib. congruence.
  - pose proof (Input_combine_scalars _ _ _ Hc) as Hs.
    unfold input_scalars_merged, option_or in Hs.
    destruct Hs as (_ & _ & _ & _ & _ & Hfs & Hfw & _).
    unfold is_finalized. rewrite Hfs, Hfw.
    split; intros x Hx; [rewrite Hia in Hx|rewrite Hib in Hx]; injection Hx as <-;
      destruct (final_script_sig ia), (final_script_witness ia),
        (final_script_sig ib), (final_script_witness ib); done.
Qed.

Lemma combine_keeps_finalized_witness :
  let ia := mkInput 1 0 None None None None (Some example_txout) ∅ None None None ∅
              (Some []) (Some [[0x30]]) ∅ ∅ ∅ ∅ None ∅ ∅ ∅ None None in
  let a := example_doc [Input_new 1 0] [] ∅ in
  let b := example_doc [ia] [] ∅ in
  exists r, combine a b = Ok r /\
  forall n ir, inputs r !! n = Some ir ->
    (forall ia, inputs a !! n = Some ia -> is_finalized ia = true -> is_finalized ir = true) /\
    (forall ib, inputs b !! n = Some ib -> is_finalized ib = true -> is_finalized ir = true).
Proof.
  intros ia a b. eexists. split; [vm_compute; reflexivity|].
  apply combine_keeps_finalized. vm_compute. reflexivity.
Defined.

(** [combine] keeps [a]'s version, fallback lock time and modification
    flags and ignores [b]'s; documents of different versions are refused
    with [TxVersionMismatch], whatever their inputs and outputs. *)
Theorem combine_globals_from_first (a b : Psbt) :
  (tx_version a <> tx_version b ->
   combine a b = Err (TxVersionMismatch (tx_version a) (tx_version b))) /\
  (forall r, combine a b = Ok r ->
     tx_version b = tx_version a /\ tx_version r = tx_version a /\
     fallback_lock_time r = fallback_lock_time a /\
     tx_modifiable_flags r = tx_modifiable_flags a).
Proof.
  unfold combine, combine_with, Psbt_combine. split.
  - intros Hne. by rewrite decide_True by done.
  - intros r.
    destruct (decide (tx_version a <> tx_version b)) as [Hne|Heq]; cbn [bind];
      [discriminate|].
    assert (tx_version a = tx_version b) as Hv
      by (destruct (decide (tx_version a = tx_version b)); tauto).
    destruct (usize_add _ _); cbn [bind]; try discriminate.
    destruct (usize_add _ _); cbn [bind]; try discriminate.
    destruct (merge_xpubs _ _); cbn [bind]; try discriminate.
    destruct (zip_combine _ _ _); cbn [bind]; try discriminate.
    destruct (zip_combine _ _ _); cbn [bind]; try discriminate.
    intros [= <-]. cbn. repeat split; congruence.
Qed.

Lemma merge_xpub_entries (m m' : gmap N KeySource) (x : N) (ks : KeySource) :
  merge_xpub m x ks = Ok m' ->
  (forall y, is_Some (m' !! y) <-> y = x \/ is_Some (m !! y)) /\
  (forall y v, m' !! y = Some v -> m !! y = Some v \/ (y = x /\ v = ks)).
Proof.
  unfold merge_xpub. destruct ks as [f1 d1].
  destruct (m !! x) as [[f2 d2]|] eqn:Hx.
  - assert (is_Some (m !! x)) as Hs by eauto.
    destruct (_ || _).
    { intros [= <-]. split; [intros y; split; [auto|intros [->|]; auto]|auto]. }
    destruct (Nat.ltb _ _); [discriminate|].
    destruct (bool_decide _); [|discriminate].
    intros [= <-]. split.
    + intros y. destruct (decide (y = x)) as [->|Hne].
      * rewrite lookup_insert_eq. split; eauto.
      * rewrite lookup_insert_ne by congruence. split; [auto|intros [|]; tauto].
    + intros y v. destruct (decide (y = x)) as [->|Hne].
      * rewrite lookup_insert_eq. intros [= <-]. by right.
      * rewrite lookup_insert_ne by congruence. by left.
  - intros [= <-]. split.
    + intros y. destruct (decide (y = x)) as [->|Hne].
      * rewrite lookup_insert_eq. split; eauto.
      * rewrite lookup_insert_ne by congruence. split; [auto|intros [|]; tauto].
    + intros y v. destruct (decide (y = x)) as [->|Hne].
      * rewrite lookup_insert_eq. intros [= <-]. by right.
      * rewrite lookup_insert_ne by congruence. by left.
Qed.

Lemma merge_xpubs_entries (m m' : gmap N KeySource) (l : list (N * KeySource)) :
  merge_xpubs m l = Ok m' ->
  (forall y, is_Some (m' !! y) <-> (exists v, In (y, v) l) \/ is_Some (m !! y)) /\
  (forall y v, m' !! y = Some v -> m !! y = Some v \/ In (y, v) l).
Proof.
  revert m. induction l as [|[x ks] l IH]; intros m; cbn [merge_xpubs].
  - intros [= <-]. split; [intros y; split; [auto|intros [[v []]|]; auto]|auto].
  - destruct (merge_xpub m x ks) as [m1| |] eqn:E; cbn [bind]; try discriminate.
    intros Hr. destruct (IH m1 Hr) as [IH1 IH2].
    destruct (merge_xpub_entries m m1 x ks E) as [E1 E2]. split.
    + intros y. rewrite IH1, E1. split.
      * intros [[v Hv]|[->|Hm]]; [left; exists v; by right|left; exists ks; by left|by right].
      * intros [[v [[= -> ->]|Hv]]|Hm]; [by right; left|left; eauto|by right; right].
    + intros y v Hy. destruct (IH2 y v Hy) as [H1|H1]; [|by right; right].
      destruct (E2 y v H1) as [|[-> ->]]; [by left|by right; left].
Qed.

(** The xpub map of [combine a b] has exactly the keys of [a]'s and [b]'s
    maps, and each of its entries is [a]'s or [b]'s entry for that key. *)
Theorem combine_xpub_keys (a b r : Psbt) (H : combine a b = Ok r) :
  (forall x, is_Some (xpub r !! x) <-> is_Some (xpub a !! x) \/ is_Some (xpub b !! x)) /\
  (forall x ks, xpub r !! x = Some ks -> xpub a !! x = Some ks \/ xpub b !! x = Some ks).
Proof.
  destruct (combine_with_ok a b r H) as (g & Hg & _ & _ & _ & _ & Hx & _).
  destruct (Psbt_combine_ok a b g Hg) as (_ & _ & _ & _ & _ & Hm).
  rewrite Hx. destruct (merge_xpubs_entries _ _ _ Hm) as [E1 E2]. split.
  - intros x. rewrite E1. split.
    + intros [[v Hv]|Ha]; [right; exists v; by apply elem_of_map_to_list, list_elem_of_In|by left].
    + intros [Ha|[v Hv]]; [by right|left; exists v; by apply list_elem_of_In, elem_of_map_to_list].
  - intros x ks Hr. destruct (E2 x ks Hr) as [|Hin]; [by left|right].
    by apply elem_of_map_to_list, list_elem_of_In.
Qed.

Lemma combine_xpub_keys_witness :
  let a := example_doc [] [] {[7 := (1, [0])]} in
  let b := example_doc [] [] {[8 := (2, [1])]} in
  exists r, combine a b = Ok r /\
  (forall x, is_Some (xpub r !! x) <-> is_Some (xpub a !! x) \/ is_Some (xpub b !! x)) /\
  (forall x ks, xpub r !! x = Some ks -> xpub a !! x = Some ks \/ xpub b !! x = Some ks).
Proof.
  intros a b. eexists. split; [vm_compute; reflexivity|].
  apply combine_xpub_keys. vm_compute. reflexivity.
Defined.

Lemma zip_combine_nil_r {A} (f : A -> A -> outcome A CombineError) xs :
  zip_combine f xs [] = Ok xs.
Proof. by destruct xs. Qed.

(** A document with [a]'s version and nothing else (no inputs, no outputs,
    no xpubs, zero counts) is a right identity of [combine]: [combine a e]
    returns [a] unchanged, whatever [e]'s fallback lock time and flags. *)
Theorem combine_empty_right (a e : Psbt)
    (Hv : tx_version e = tx_version a)
    (Hic : input_count e = 0) (Hoc : output_count e = 0) (Hx : xpub e = ∅)
    (Hin : inputs e = []) (Hout : outputs e = [])
    (Hia : input_count a < usize_modulus) (Hoa : output_count a < usize_modulus) :
  combine a e = Ok a.
Proof.
  unfold combine, combine_with, Psbt_combine.
  rewrite decide_False by congruence. cbn [bind].
  unfold usize_add. rewrite Hic, Hoc, !N.add_0_r.
  apply N.ltb_lt in Hia, Hoa. rewrite Hia, Hoa. cbn [bind].
  rewrite Hx, map_to_list_empty. cbn [merge_xpubs bind inputs outputs].
  rewrite Hin, Hout, !zip_combine_nil_r. cbn [bind].
  by destruct a.
Qed.

Lemma combine_empty_right_witness :
  let a := example_doc [Input_new 1 0] [Output_new 5 [0x51]] {[7 := (1, [0])]} in
  let e := mkPsbt 2 (Blocks 500000) 0 0 3 ∅ [] [] in
  combine a e = Ok a.
Proof.
  intros a e.
  apply combine_empty_right; first [reflexivity | vm_compute; reflexivity].
Defined.

(** ** Sighash types of the partial signatures *)

Lemma check_sigs_standard (idx : nat) (target : EcdsaSighashType) sigs n t :
  check_sigs idx target sigs <> Err (NonStandardPartialSigsSighashType n t).
Proof.
  induction sigs as [|[k s] sigs IH]; simpl; [done|].
  rewrite from_standard_to_u32. simpl.
  destruct (decide _); [done|exact IH].
Qed.

Lemma check_inputs_sighash_standard (idx : nat) (l : list Input) n t :
  check_inputs_sighash idx l <> Err (NonStandardPartialSigsSighashType n t).
Proof.
  revert idx. induction l as [|i l IH]; intros idx; simpl; [done|].
  destruct (sighash_type i) as [u|]; [destruct (ecdsa_hash_ty u)|]; simpl; try done.
  - destruct (check_sigs _ _ _) eqn:Ec; simpl; [apply IH|intros [= ->]; by eapply check_sigs_standard|done].
  - destruct (check_sigs _ _ _) eqn:Ec; simpl; [apply IH|intros [= ->]; by eapply check_sigs_standard|done].
Qed.

(** The sighash type of a partial signature is always a standard one, so
    the sighash check of [Finalizer::new] never reports
    [NonStandardPartialSigsSighashType]. *)
Theorem partial_sigs_never_nonstandard (p : Psbt) :
  forall n t,
    check_partial_sigs_sighash_type p <> Err (NonStandardPartialSigsSighashType n t) /\
    Finalizer_new p <> Err (PartialSigsSighashType (NonStandardPartialSigsSighashType n t)).
Proof.
  intros n t. split; [apply check_inputs_sighash_standard|].
  unfold Finalizer_new.
  destruct (all_funding_utxos (inputs p)); cbn [map_err bind]; try done.
  destruct (determine_lock_time p); cbn [map_err bind]; try done.
  destruct (check_partial_sigs_sighash_type p) eqn:E; cbn [map_err bind]; try done.
  intros [= He]. subst. by apply (check_inputs_sighash_standard 0 (inputs p) n t).
Qed.

Lemma check_inputs_sighash_declared (idx : nat) (l : list Input) :
  check_inputs_sighash idx l = Ok tt ->
  forall i t, In i l -> sighash_type i = Some t -> ecdsa_hash_ty t <> None.
Proof.
  revert idx. induction l as [|i l IH]; intros idx; simpl; [done|].
  destruct (sighash_type i) as [u|] eqn:Hu.
  - destruct (ecdsa_hash_ty u) as [target|] eqn:Et; simpl; [|discriminate].
    destruct (check_sigs _ _ _) as [[]| |]; simpl; try discriminate.
    intros Hrest j t [<-|Hin] Ht.
    + rewrite Hu in Ht. injection Ht as <-. by rewrite Et.
    + by apply (IH (S idx) Hrest j t).
  - simpl. destruct (check_sigs _ _ _) as [[]| |]; simpl; try discriminate.
    intros Hrest j t [<-|Hin] Ht; [congruence|]. by apply (IH (S idx) Hrest j t).
Qed.

(** An input whose declared sighash type is not a standard ECDSA type makes
    [Finalizer::new] fail, even when it has no partial signature. *)
Theorem nonstandard_sighash_blocks_finalizer (p : Psbt) (i : Input) (t : PsbtSighashType)
    (Hin : In i (inputs p)) (Hs : sighash_type i = Some t) (Hn : ecdsa_hash_ty t = None) :
  is_ok (Finalizer_new p) = false.
Proof.
  unfold Finalizer_new.
  destruct (all_funding_utxos (inputs p)); cbn [map_err bind]; try done.
  destruct (determine_lock_time p); cbn [map_err bind]; try done.
  destruct (check_partial_sigs_sighash_type p) as [[]| |] eqn:E; cbn [map_err bind]; try done.
  exfalso. by apply (check_inputs_sighash_declared 0 (inputs p) E i t Hin Hs).
Qed.

Lemma nonstandard_sighash_blocks_finalizer_witness :
  let i := example_input None None (Some example_txout) ∅ (Some 0x04) in
  let p := example_doc [i] [] ∅ in
  In i (inputs p) /\ sighash_type i = Some 0x04 /\ ecdsa_hash_ty 0x04 = None /\
  is_ok (Finalizer_new p) = false.
Proof.
  intros i p.
  assert (In i (inputs p)) as Hin by (left; reflexivity).
  assert (sighash_type i = Some 0x04) as Hs by reflexivity.
  assert (ecdsa_hash_ty 0x04 = None) as Hn by reflexivity.
  split; [exact Hin|]. split; [exact Hs|]. split; [exact Hn|].
  exact (nonstandard_sighash_blocks_finalizer p i 0x04 Hin Hs Hn).
Defined.

(** ** Conversions *)



